(** * Browser-automation example scripts and their server launcher

    A shallow embedding of the two Playwright example scripts
    ([examples/php_server_testing.py], [examples/php_testing_example.py])
    and of the launcher [scripts/with_server.py] they are run under. *)

From Stdlib Require Import String Ascii List Bool Arith ZArith Lia.
From Stdlib Require Import DecimalString.
Import ListNotations.

Local Open Scope list_scope.
Local Open Scope string_scope.

(* ===================================================================== *)
(** ** Python text primitives used by the scripts *)
(* ===================================================================== *)

Module Py.

  (** The newline character, and the double quote inside a literal. *)
Definition nl : string := String (ascii_of_nat 10) EmptyString.
Definition dq : string := String (ascii_of_nat 34) EmptyString.

  (** A Python [str] is held as the bytes of its UTF-8 encoding: one byte
      for an ASCII character, two to four for any other.

      [str.isspace] holds of TAB..CR, FS..US and the blank, which take one
      byte, of U+0085 and U+00A0, which take two, and of U+1680,
      U+2000..U+200A, U+2028, U+2029, U+202F, U+205F and U+3000, which
      take three. *)
Definition isspace (c : ascii) : bool :=
    let n := nat_of_ascii c in
    (((9 <=? n) && (n <=? 13)) || ((28 <=? n) && (n <=? 32)))%nat.

Definition isspace2 (a b : ascii) : bool :=
    let y := nat_of_ascii b in
    ((nat_of_ascii a =? 194) && ((y =? 133) || (y =? 160)))%nat.

Definition isspace3 (a b c : ascii) : bool :=
    let x := nat_of_ascii a in
    let y := nat_of_ascii b in
    let z := nat_of_ascii c in
    (((x =? 225) && (y =? 154) && (z =? 128))
     || ((x =? 226) && (y =? 128) &&
         (((128 <=? z) && (z <=? 138)) || (z =? 168) || (z =? 169) || (z =? 175)))
     || ((x =? 226) && (y =? 129) && (z =? 159))
     || ((x =? 227) && (y =? 128) && (z =? 128)))%nat.

  (** Drops the whitespace characters at the head of [s], [two] and
      [three] telling those of two and three bytes. *)
Fixpoint drop_space (two : ascii -> ascii -> bool)
           (three : ascii -> ascii -> ascii -> bool) (s : string) : string :=
    match s with
    | EmptyString => s
    | String a s1 =>
        if isspace a then drop_space two three s1
        else
          match s1 with
          | EmptyString => s
          | String b s2 =>
              if two a b then drop_space two three s2
              else
                match s2 with
                | EmptyString => s
                | String c s3 =>
                    if three a b c then drop_space two three s3 else s
                end
          end
    end.

Definition lstrip (s : string) : string := drop_space isspace2 isspace3 s.

Fixpoint rev_append (s acc : string) : string :=
    match s with
    | EmptyString => acc
    | String c r => rev_append r (String c acc)
    end.

Definition reverse (s : string) : string := rev_append s EmptyString.

  (** From the end the bytes of a character come last byte first. *)
Definition rstrip (s : string) : string :=
    reverse (drop_space (fun a b => isspace2 b a)
                        (fun a b c => isspace3 c b a) (reverse s)).

  (** [s.strip()] *)
Definition strip (s : string) : string := rstrip (lstrip s).

  (** [s.isascii()] *)
Fixpoint isascii (s : string) : bool :=
    match s with
    | EmptyString => true
    | String c r => (nat_of_ascii c <? 128)%nat && isascii r
    end.

  (** [str(n)] for a non-negative [int] (as an f-string prints [len(..)]). *)
Definition str_of_nat (n : nat) : string :=
    NilEmpty.string_of_uint (Nat.to_uint n).

  (** [str(x)] for an [Optional[str]] inside an f-string. *)
Definition str_of_optional (o : option string) : string :=
    match o with
    | Some s => s
    | None => "None"
    end.

  (** Truth value of a list in an [if]: it is true when [len] is not 0. *)
Definition truthy {A : Type} (l : list A) : bool :=
    negb (Nat.eqb (length l) 0).

  (** [s.startswith(p)], by recursion on [p] so that it computes on a
      literal prefix. *)
Fixpoint startswith (s p : string) {struct p} : bool :=
    match p with
    | EmptyString => true
    | String a p' =>
        match s with
        | EmptyString => false
        | String b s' => Ascii.eqb a b && startswith s' p'
        end
    end.

  (** The slice [l[:n]]. *)
Definition slice_to {A : Type} (n : nat) (l : list A) : list A := firstn n l.

End Py.

(* ===================================================================== *)
(** ** The Playwright surface the scripts call *)
(* ===================================================================== *)

(** A console message as the handler sees it ([msg.type], [msg.text]). *)
Record ConsoleMessage : Type := mkMsg {
  msg_type : string;
  msg_text : string
}.

(** [page.locator(sel)], and the members of [locator.all()]. *)
Inductive Locator : Type :=
| Css (sel : string)
| Nth (base : Locator) (i : nat).

(** The blocking calls of the sync API, indexed by what they return. *)
Inductive api : Type -> Type :=
| Launch (headless : bool) : api unit
| NewPage (viewport : option (nat * nat)) : api unit
| Goto (url : string) : api unit
| WaitForLoadState (state : string) : api unit
| WaitForUrl (pattern : string) : api unit
| WaitForTimeout (ms : nat) : api unit
| WaitForSelector (sel : string) : api unit
| Title : api string
| Content : api string
| Fill (sel value : string) : api unit
| Click (sel : string) : api unit
| All (l : Locator) : api (list Locator)
| GetAttribute (l : Locator) (name : string) : api (option string)
| InnerText (l : Locator) : api string
| ClickLocator (l : Locator) : api unit
| IsVisible (l : Locator) : api bool
| Screenshot (path : string) (full_page : bool) : api unit
| Close : api unit.

(** What one call gives back: a value or a library error, together with
    the console messages dispatched to Python while the call was blocked. *)
Record reply (T : Type) : Type := mkReply {
  outcome : string + T;
  delivered : list ConsoleMessage
}.
Arguments mkReply {T} _ _.
Arguments outcome {T} _.
Arguments delivered {T} _.

(** Exceptions a script can end with. *)
Inductive exn : Type :=
| IndexError
| PlaywrightError (what : string)
| UnicodeEncodeError.

Inductive result (A : Type) : Type :=
| Ok (a : A)
| Raise (e : exn).
Arguments Ok {A} _.
Arguments Raise {A} _.

(** One entry of the observable history of a run. *)
Inductive entry : Type :=
| Called {T : Type} (a : api T) (r : reply T)
| Listen (event : string).

(** The shared store: Python list objects holding strings, by reference. *)
Definition ref : Type := nat.
Definition Heap : Type := list (list string).

Definition heap_read (r : ref) (h : Heap) : list string := nth r h [].

Fixpoint heap_append (r : ref) (x : string) (h : Heap) : Heap :=
  match h, r with
  | [], _ => []
  | cell :: rest, O => (cell ++ [x])%list :: rest
  | cell :: rest, S r' => cell :: heap_append r' x rest
  end.

Definition handler : Type := ConsoleMessage -> Heap -> Heap.

(** Every message goes to every registered handler, in arrival order. *)
Definition dispatch (hs : list handler) (ms : list ConsoleMessage) (h : Heap) : Heap :=
  fold_left (fun hp m => fold_left (fun hp' k => k m hp') hs hp) ms h.

(** The browser and the site behind it are external: any state type and
    any answers implement the interface.  So is the stream behind
    [sys.stdout]: [encodable s] tells whether its encoding has every
    character of [s]. *)
Class Playwright (Browser : Type) : Type := {
  respond : forall T : Type, api T -> Browser -> reply T * Browser;
  current_url : Browser -> string;
  encodable : string -> bool
}.

Declare Scope script_scope.
Delimit Scope script_scope with script.

Section Scripts.

Context {Browser : Type} {PW : Playwright Browser}.

Record World : Type := mkWorld {
    browser : Browser;
    listeners : list handler;
    heap : Heap;
    stdout : list string;
    trace : list entry
  }.

Definition initial (b : Browser) : World :=
    {| browser := b; listeners := []; heap := []; stdout := []; trace := [] |}.

  (** State and exception monad of a script. *)
Definition M (A : Type) : Type := World -> result A * World.

Definition ret {A : Type} (a : A) : M A := fun w => (Ok a, w).

Definition bind {A B : Type} (m : M A) (k : A -> M B) : M B :=
    fun w =>
      match m w with
      | (Ok a, w') => k a w'
      | (Raise e, w') => (Raise e, w')
      end.

Definition raise {A : Type} (e : exn) : M A := fun w => (Raise e, w).

Notation "x <- m ;; k" := (bind m (fun x => k))
    (at level 61, m at next level, right associativity) : script_scope.
Notation "m ;; k" := (bind m (fun _ => k))
    (at level 61, right associativity) : script_scope.
Local Open Scope script_scope.

  (** A library error surfaces as a Python exception. *)
Definition result_of {T : Type} (r : reply T) : result T :=
    match outcome r with
    | inr v => Ok v
    | inl what => Raise (PlaywrightError what)
    end.

  (** The world once a call has come back: the handlers have run on the
      messages it delivered and the call is on record. *)
Definition after_call (w : World) {T : Type} (a : api T) (r : reply T)
             (b' : Browser) : World :=
    {| browser := b';
       listeners := listeners w;
       heap := dispatch (listeners w) (delivered r) (heap w);
       stdout := stdout w;
       trace := (trace w ++ [Called a r])%list |}.

  (** A blocking library call. *)
Definition call {T : Type} (a : api T) : M T :=
    fun w =>
      let (r, b') := respond T a (browser w) in
      (result_of r, after_call w a r b').

  (** [page.url] *)
Definition page_url : M string := fun w => (Ok (current_url (browser w)), w).

Definition after_print (w : World) (s : string) : World :=
    {| browser := browser w; listeners := listeners w; heap := heap w;
       stdout := (stdout w ++ [s])%list; trace := trace w |}.

  (** Whether [print(s)] goes through: ASCII text does under the encodings
      Python gives [sys.stdout], other text when the stream encodes it. *)
Definition printable (s : string) : bool := Py.isascii s || encodable s.

  (** [print(s)]: the line is written, or nothing is and
      [UnicodeEncodeError] is raised. *)
Definition print (s : string) : M unit :=
    fun w => if printable s then (Ok tt, after_print w s)
             else (Raise UnicodeEncodeError, w).

  (** [x = []] *)
Definition new_list : M ref :=
    fun w => (Ok (length (heap w)),
              {| browser := browser w; listeners := listeners w;
                 heap := (heap w ++ [[]])%list; stdout := stdout w;
                 trace := trace w |}).

  (** Reading a list object. *)
Definition read_list (r : ref) : M (list string) :=
    fun w => (Ok (heap_read r (heap w)), w).

  (** [page.on(event, k)] *)
Definition page_on (event : string) (k : handler) : M unit :=
    fun w => (Ok tt, {| browser := browser w;
                        listeners := (listeners w ++ [k])%list;
                        heap := heap w; stdout := stdout w;
                        trace := (trace w ++ [Listen event])%list |}).

  (** [l[i]] *)
Definition index {A : Type} (l : list A) (i : nat) : M A :=
    match nth_error l i with
    | Some x => ret x
    | None => raise IndexError
    end.

  (** [for x in l: body(x)] *)
Fixpoint for_each {A : Type} (l : list A) (body : A -> M unit) : M unit :=
    match l with
    | [] => ret tt
    | x :: rest => body x ;; for_each rest body
    end.

  (* ------------------------------------------------------------------- *)
  (** *** examples/php_server_testing.py *)
  (* ------------------------------------------------------------------- *)

Definition php_server_testing : M unit :=
    call (Launch true) ;;
    call (NewPage None) ;;
    call (Goto "http://localhost:8000") ;;
    call (WaitForLoadState "networkidle") ;;
    title <- call Title ;;
    print ("Page title: " ++ title) ;;
    links <- call (All (Css "a[href]")) ;;
    print (Py.nl ++ "Found " ++ Py.str_of_nat (length links) ++ " links:") ;;
    for_each (Py.slice_to 5 links) (fun link =>
      href <- call (GetAttribute link "href") ;;
      text <- call (InnerText link) ;;
      print ("  - " ++ Py.strip text ++ " -> " ++ Py.str_of_optional href)) ;;
    (if Py.truthy links then
       first_link <- index links 0 ;;
       t <- call (InnerText first_link) ;;
       print (Py.nl ++ "Clicking first link: " ++ t) ;;
       call (ClickLocator first_link) ;;
       call (WaitForLoadState "networkidle") ;;
       u <- page_url ;;
       print ("Navigated to: " ++ u)
     else ret tt) ;;
    call (Screenshot "/tmp/php_app_test.png" true) ;;
    print (Py.nl ++ "Screenshot saved to /tmp/php_app_test.png") ;;
    call Close ;;
    print "PHP server testing completed!".

  (* ------------------------------------------------------------------- *)
  (** *** examples/php_testing_example.py *)
  (* ------------------------------------------------------------------- *)

  (** [def handle_console(msg): console_logs.append(f"[{msg.type}] {msg.text}")] *)
Definition format_console (msg : ConsoleMessage) : string :=
    "[" ++ msg_type msg ++ "] " ++ msg_text msg.

Definition handle_console (console_logs : ref) : handler :=
    fun msg => heap_append console_logs (format_console msg).

  (** The selector ['button[type="submit"]']. *)
Definition submit_button : string :=
    "button[type=" ++ Py.dq ++ "submit" ++ Py.dq ++ "]".

Definition setup : M unit :=
    call (Launch true) ;;
    call (NewPage (Some (1920, 1080))).

  (** Example 1: Testing a PHP login form *)
Definition example_1 : M unit :=
    call (Goto "http://localhost:8000/login.php") ;;
    call (WaitForLoadState "networkidle") ;;
    call (Screenshot "/tmp/php_login_page.png" true) ;;
    call (Fill "#username" "testuser") ;;
    call (Fill "#password" "testpass123") ;;
    call (Click submit_button) ;;
    call (WaitForUrl "**/dashboard.php") ;;
    welcome_message <- call (InnerText (Css ".welcome-message")) ;;
    print ("Login successful! Message: " ++ welcome_message).

  (** Example 2: Testing a PHP AJAX endpoint *)
Definition example_2 : M unit :=
    call (Goto "http://localhost:8000/api/users.php") ;;
    call (WaitForLoadState "networkidle") ;;
    content <- call Content ;;
    print ("API Response: " ++ content).

  (** Example 3: Testing PHP form submission with validation *)
Definition example_3 : M unit :=
    call (Goto "http://localhost:8000/register.php") ;;
    call (WaitForLoadState "networkidle") ;;
    call (Fill "#email" "invalid-email") ;;
    call (Click submit_button) ;;
    call (WaitForTimeout 500) ;;
    error <- call (InnerText (Css ".error-message")) ;;
    print ("Validation error displayed: " ++ error) ;;
    call (Fill "#email" "user@example.com") ;;
    call (Fill "#username" "newuser") ;;
    call (Fill "#password" "SecurePass123!") ;;
    call (Click submit_button) ;;
    call (WaitForSelector ".success-message") ;;
    success <- call (InnerText (Css ".success-message")) ;;
    print ("Registration successful: " ++ success).

  (** The two lines printed once the dashboard has loaded. *)
Definition captured_line (n : nat) : string :=
    Py.nl ++ "Captured " ++ Py.str_of_nat n ++ " console messages:".

Definition log_line (log : string) : string := "  " ++ log.

  (** Example 4: Capture console logs *)
Definition example_4 : M unit :=
    console_logs <- new_list ;;
    page_on "console" (handle_console console_logs) ;;
    call (Goto "http://localhost:8000/dashboard.php") ;;
    call (WaitForLoadState "networkidle") ;;
    logs <- read_list console_logs ;;
    print (captured_line (length logs)) ;;
    for_each logs (fun log => print (log_line log)).

  (** Example 5: Testing PHP session persistence *)
Definition example_5 : M unit :=
    call (Goto "http://localhost:8000/profile.php") ;;
    call (WaitForLoadState "networkidle") ;;
    visible <- call (IsVisible (Css ".logout-button")) ;;
    (if visible : bool
     then print "Session maintained - user still logged in"
     else print "Session lost - user logged out") ;;
    call (Screenshot "/tmp/php_profile_page.png" true).

Definition php_testing_example : M unit :=
    setup ;;
    example_1 ;;
    example_2 ;;
    example_3 ;;
    example_4 ;;
    example_5 ;;
    call Close ;;
    print (Py.nl ++ "PHP application testing completed!").

End Scripts.

Arguments World Browser : clear implicits.
Arguments M Browser A : clear implicits.

(* ===================================================================== *)
(** ** Two concrete sites to run the scripts against *)
(* ===================================================================== *)

Module Site.

  (** The browser state is the number of calls answered so far. *)
Definition state : Type := nat.

Definition anchors (n : nat) : list Locator :=
    map (Nth (Css "a[href]")) (seq 0 n).

Definition note (s : state) : list ConsoleMessage :=
    [ mkMsg "log" ("tick " ++ Py.str_of_nat s) ].

  (** U+00A0, the no-break space, in UTF-8. *)
Definition nbsp : string :=
    String (ascii_of_nat 194) (String (ascii_of_nat 160) EmptyString).

  (** A site with [n_links] anchors on every page that logs one console
      message per navigation and per wait for the load state; the text of
      its elements comes between a no-break space and a blank. *)
Definition answer (n_links : nat) (T : Type) (a : api T) (s : state) : reply T * state :=
    (match a in api T0 return reply T0 with
     | Launch _ => mkReply (inr tt) []
     | NewPage _ => mkReply (inr tt) []
     | Goto _ => mkReply (inr tt) (note s)
     | WaitForLoadState _ => mkReply (inr tt) (note s)
     | WaitForUrl _ => mkReply (inr tt) []
     | WaitForTimeout _ => mkReply (inr tt) []
     | WaitForSelector _ => mkReply (inr tt) []
     | Title => mkReply (inr "Home") []
     | Content => mkReply (inr "[]") []
     | Fill _ _ => mkReply (inr tt) []
     | Click _ => mkReply (inr tt) []
     | All _ => mkReply (inr (anchors n_links)) []
     | GetAttribute _ _ => mkReply (inr (Some ("/p" ++ Py.str_of_nat s))) []
     | InnerText _ => mkReply (inr (nbsp ++ "item " ++ Py.str_of_nat s ++ " ")) []
     | ClickLocator _ => mkReply (inr tt) []
     | IsVisible _ => mkReply (inr true) []
     | Screenshot _ _ => mkReply (inr tt) []
     | Close => mkReply (inr tt) []
     end, S s).

Definition url (s : state) : string := "http://localhost:8000/p".

  (** The terminal takes any text (UTF-8). *)
Definition served (n_links : nat) : Playwright state :=
    {| respond := answer n_links; current_url := url; encodable := fun _ => true |}.

  (** The same site seen from a terminal that takes ASCII only. *)
Definition served_ascii (n_links : nat) : Playwright state :=
    {| respond := answer n_links; current_url := url; encodable := fun _ => false |}.

End Site.

(* ===================================================================== *)
(** ** The launcher the scripts are run under *)
(* ===================================================================== *)

(** Modelled from the spec: the launcher ([scripts/with_server.py]) is not
    among the sources; this state machine follows its description, with
    time in ticks.  No theorem of this file rests on it. *)
Module Launcher.

Local Open Scope nat_scope.

  (** The states of the launcher's state machine. *)
Inductive phase : Type :=
  | NotStarted | ServerStarting | ServerReady | TestRunning
  | TestPassed | TestFailed | Cleanup | Done.

  (** The error taxonomy. *)
Inductive condition : Type :=
  | ServerStartTimeout | ServerLaunchFailure
  | TestCommandFailure | InterruptedDuringRun.

Inductive child : Type := Server | TestCommand.

  (** A child process as the launcher holds it. *)
Inductive proc : Type :=
  | Absent
  | Alive (since : nat)
  | Gone (at_tick : nat).

  (** What the launcher does, in the order it does it. *)
Inductive event : Type :=
  | Spawned (c : child)
  | LaunchFailed
  | Probed (connected : bool)
  | TimedOut
  | TestExited (code : Z)
  | Interrupted
  | Terminate (c : child)
  | ForceKill (c : child)
  | Reaped (c : child)
  | Exited (code : Z).

  (** The launcher's settings, times in ticks of its clock. *)
Record Config : Type := mkConfig {
    timeout : nat;
    interval : nat;
    grace : nat;
    reserved_code : Z;
    interrupt_code : Z
  }.

  (** A server command, by what it does once spawned. *)
Record ServerCommand : Type := mkServer {
    spawnable : bool;
    listens_after : option nat;
    server_exits_after : option nat
  }.

  (** A test command, by what it does once spawned. *)
Record TestCmd : Type := mkTest {
    runs_for : option nat;
    exit_code : Z;
    test_exits_after : option nat
  }.

  (** The machine the launcher runs on, as far as a run can see it or
      change it: whether the port accepts connections, and how many
      processes of earlier runs are still there. *)
Record Host : Type := mkHost {
    port_open : bool;
    strays : nat
  }.

Definition clean : Host := {| port_open := false; strays := 0 |}.

Record Env : Type := mkEnv {
    server : ServerCommand;
    test : TestCmd;
    interrupt : option nat;
    host : Host
  }.

Record State : Type := mkState {
    phase_of : phase;
    clock : nat;
    server_proc : proc;
    test_proc : proc;
    pending : Z;
    raised : option condition;
    exit_status : option Z;
    events : list (nat * event);
    visited : list phase
  }.

Definition start : State :=
    {| phase_of := NotStarted; clock := 0; server_proc := Absent;
       test_proc := Absent; pending := 0%Z; raised := None;
       exit_status := None; events := []; visited := [NotStarted] |}.

Definition goto_phase (p : phase) (s : State) : State :=
    {| phase_of := p; clock := clock s; server_proc := server_proc s;
       test_proc := test_proc s; pending := pending s; raised := raised s;
       exit_status := exit_status s; events := events s;
       visited := (visited s ++ [p])%list |}.

Definition emit (e : event) (s : State) : State :=
    {| phase_of := phase_of s; clock := clock s; server_proc := server_proc s;
       test_proc := test_proc s; pending := pending s; raised := raised s;
       exit_status := exit_status s;
       events := (events s ++ [(clock s, e)])%list; visited := visited s |}.

Definition advance_to (t : nat) (s : State) : State :=
    {| phase_of := phase_of s; clock := Nat.max (clock s) t;
       server_proc := server_proc s; test_proc := test_proc s;
       pending := pending s; raised := raised s;
       exit_status := exit_status s; events := events s;
       visited := visited s |}.

Definition set_server (p : proc) (s : State) : State :=
    {| phase_of := phase_of s; clock := clock s; server_proc := p;
       test_proc := test_proc s; pending := pending s; raised := raised s;
       exit_status := exit_status s; events := events s;
       visited := visited s |}.

Definition set_test (p : proc) (s : State) : State :=
    {| phase_of := phase_of s; clock := clock s; server_proc := server_proc s;
       test_proc := p; pending := pending s; raised := raised s;
       exit_status := exit_status s; events := events s;
       visited := visited s |}.

Definition fail_with (c : condition) (code : Z) (s : State) : State :=
    {| phase_of := phase_of s; clock := clock s; server_proc := server_proc s;
       test_proc := test_proc s; pending := code; raised := Some c;
       exit_status := exit_status s; events := events s;
       visited := visited s |}.

Definition set_pending (code : Z) (s : State) : State :=
    {| phase_of := phase_of s; clock := clock s; server_proc := server_proc s;
       test_proc := test_proc s; pending := code; raised := raised s;
       exit_status := exit_status s; events := events s;
       visited := visited s |}.

Definition finish (s : State) : State :=
    {| phase_of := phase_of s; clock := clock s; server_proc := server_proc s;
       test_proc := test_proc s; pending := pending s; raised := raised s;
       exit_status := Some (pending s); events := events s;
       visited := visited s |}.

Section Machine.

Variable cfg : Config.
Variable env : Env.

    (** Has the external interrupt reached the launcher by now? *)
Definition interrupted (s : State) : bool :=
      match interrupt env with
      | Some ti => ti <=? clock s
      | None => false
      end.

    (** A blocking wait until tick [t], cut short by the interrupt. *)
Definition wake (t : nat) : nat :=
      match interrupt env with
      | Some ti => if ti <? t then ti else t
      | None => t
      end.

    (** One TCP connect to the port. *)
Definition accepting (s : State) : bool :=
      port_open (host env) ||
      match server_proc s, listens_after (server env) with
      | Alive since, Some d => since + d <=? clock s
      | _, _ => false
      end.

    (** How long a signalled child takes to be gone: its own delay when
        that is within the grace period, else the grace period, at the end
        of which it is force-killed. *)
Definition dies_within (delay : option nat) : nat :=
      match delay with
      | Some d => if d <=? grace cfg then d else grace cfg
      | None => grace cfg
      end.

Definition needs_force (delay : option nat) : bool :=
      match delay with
      | Some d => negb (d <=? grace cfg)
      | None => true
      end.

Definition delay_of (c : child) : option nat :=
      match c with
      | Server => server_exits_after (server env)
      | TestCommand => test_exits_after (test env)
      end.

Definition proc_of (c : child) (s : State) : proc :=
      match c with
      | Server => server_proc s
      | TestCommand => test_proc s
      end.

Definition set_proc (c : child) (p : proc) (s : State) : State :=
      match c with
      | Server => set_server p s
      | TestCommand => set_test p s
      end.

Definition is_alive (p : proc) : bool :=
      match p with
      | Alive _ => true
      | _ => false
      end.

    (** Send the termination signal to a child that is still there. *)
Definition signal (c : child) (s : State) : State :=
      if is_alive (proc_of c s) then emit (Terminate c) s else s.

    (** Wait for a child signalled at tick [t0], force-killing it when the
        grace period runs out, and give up its handle. *)
Definition reap (t0 : nat) (c : child) (s : State) : State :=
      if is_alive (proc_of c s) then
        let gone := t0 + dies_within (delay_of c) in
        let s1 := advance_to gone s in
        let s2 := if needs_force (delay_of c) then emit (ForceKill c) s1 else s1 in
        emit (Reaped c) (set_proc c (Gone gone) s2)
      else s.

    (** The Cleanup state: both children are signalled, then waited for,
        the test command first, and the launcher exits. *)
Definition cleanup (s : State) : State :=
      let t0 := clock s in
      let s1 := signal Server (signal TestCommand s) in
      let s2 := reap t0 Server (reap t0 TestCommand s1) in
      goto_phase Done (emit (Exited (pending s2)) (finish s2)).

Definition on_interrupt (s : State) : State :=
      goto_phase Cleanup
        (fail_with InterruptedDuringRun (interrupt_code cfg) (emit Interrupted s)).

Definition step (s : State) : State :=
      match phase_of s with
      | Done => s
      | Cleanup => cleanup s
      | p =>
        if interrupted s then on_interrupt s else
        match p with
        | NotStarted =>
            if spawnable (server env)
            then goto_phase ServerStarting
                   (emit (Spawned Server) (set_server (Alive (clock s)) s))
            else goto_phase Cleanup
                   (fail_with ServerLaunchFailure (reserved_code cfg)
                      (emit LaunchFailed s))
        | ServerStarting =>
            if timeout cfg <=? clock s
            then goto_phase Cleanup
                   (fail_with ServerStartTimeout (reserved_code cfg)
                      (emit TimedOut s))
            else if accepting s
            then goto_phase ServerReady (emit (Probed true) s)
            else let s1 := emit (Probed false) s in
                 advance_to (wake (clock s + interval cfg)) s1
        | ServerReady =>
            goto_phase TestRunning
              (emit (Spawned TestCommand) (set_test (Alive (clock s)) s))
        | TestRunning =>
            match test_proc s, runs_for (test env) with
            | Alive since, Some n =>
                let fin := since + n in
                if wake fin <? fin
                then advance_to (wake fin) s
                else
                  let s1 := set_test (Gone fin) (advance_to fin s) in
                  let s2 := set_pending (exit_code (test env))
                              (emit (TestExited (exit_code (test env))) s1) in
                  if (exit_code (test env) =? 0)%Z
                  then goto_phase TestPassed s2
                  else goto_phase TestFailed s2
            | _, _ =>
                match interrupt env with
                | Some ti => advance_to ti s
                | None => s
                end
            end
        | TestPassed => goto_phase Cleanup s
        | TestFailed =>
            goto_phase Cleanup
              (fail_with TestCommandFailure (pending s) s)
        | Cleanup => cleanup s
        | Done => s
        end
      end.

Fixpoint run (fuel : nat) (s : State) : State :=
      match fuel with
      | O => s
      | S n => run n (step s)
      end.

    (** What the run leaves behind on the host. *)
Definition listening (s : State) : bool :=
      match server_proc s, listens_after (server env) with
      | Alive since, Some d => since + d <=? clock s
      | _, _ => false
      end.

Definition alive_count (s : State) : nat :=
      (if is_alive (server_proc s) then 1 else 0) +
      (if is_alive (test_proc s) then 1 else 0).

Definition host_after (s : State) : Host :=
      {| port_open := port_open (host env) || listening s;
         strays := strays (host env) + alive_count s |}.

End Machine.

  (** Steps that always suffice for a run that can finish. *)
Definition enough (cfg : Config) : nat := timeout cfg + 8.

  (** What an outside observer records of a finished run. *)
Definition observed (s : State) : option Z * list (nat * event) * list phase :=
    (exit_status s, events s, visited s).

  (** The two scenarios of the specification (one tick is 100 ms). *)
Definition http_server : ServerCommand :=
    {| spawnable := true; listens_after := Some 3; server_exits_after := Some 0 |}.
Definition sleep_100 : ServerCommand :=
    {| spawnable := true; listens_after := None; server_exits_after := Some 0 |}.
Definition true_cmd : TestCmd :=
    {| runs_for := Some 0; exit_code := 0%Z; test_exits_after := Some 0 |}.

End Launcher.

(* ===================================================================== *)
(** ** What the history of a run shows *)
(* ===================================================================== *)

(** The URL of a [page.goto], the path of a [page.screenshot], the target
    of a [locator.click()]. *)
Definition navigation (e : entry) : list string :=
  match e with
  | Called a _ => match a with Goto url => [url] | _ => [] end
  | Listen _ => []
  end.

Definition screenshot (e : entry) : list string :=
  match e with
  | Called a _ => match a with Screenshot path _ => [path] | _ => [] end
  | Listen _ => []
  end.

Definition click (e : entry) : list Locator :=
  match e with
  | Called a _ => match a with ClickLocator l => [l] | _ => [] end
  | Listen _ => []
  end.

(** The list a successful [locator.all()] came back with. *)
Definition found (e : entry) : list (list Locator) :=
  match e with
  | @Called T a r =>
      match a in api T0 return reply T0 -> list (list Locator) with
      | All _ => fun r0 => match outcome r0 with inr v => [v] | inl _ => [] end
      | _ => fun _ => []
      end r
  | Listen _ => []
  end.

(** The link and the value of a successful [get_attribute]. *)
Definition href_read (e : entry) : list (Locator * option string) :=
  match e with
  | @Called T a r =>
      match a in api T0 return reply T0 -> list (Locator * option string) with
      | GetAttribute l _ =>
          fun r0 => match outcome r0 with inr v => [(l, v)] | inl _ => [] end
      | _ => fun _ => []
      end r
  | Listen _ => []
  end.

(** The element and the value of a successful [inner_text]. *)
Definition text_read (e : entry) : list (Locator * string) :=
  match e with
  | @Called T a r =>
      match a in api T0 return reply T0 -> list (Locator * string) with
      | InnerText l =>
          fun r0 => match outcome r0 with inr v => [(l, v)] | inl _ => [] end
      | _ => fun _ => []
      end r
  | Listen _ => []
  end.

Definition registration (e : entry) : list string :=
  match e with
  | Called _ _ => []
  | Listen ev => [ev]
  end.

Definition delivered_by (e : entry) : list ConsoleMessage :=
  match e with
  | Called _ r => delivered r
  | Listen _ => []
  end.

Definition navigations (tr : list entry) : list string := flat_map navigation tr.
Definition screenshots (tr : list entry) : list string := flat_map screenshot tr.
Definition clicks (tr : list entry) : list Locator := flat_map click tr.
Definition links_found (tr : list entry) : list (list Locator) := flat_map found tr.
Definition hrefs_read (tr : list entry) : list (Locator * option string) :=
  flat_map href_read tr.
Definition texts_read (tr : list entry) : list (Locator * string) :=
  flat_map text_read tr.
Definition registrations (tr : list entry) : list string :=
  flat_map registration tr.

(** The console messages delivered by the calls made after the first
    handler registration. *)
Fixpoint heard (tr : list entry) : list ConsoleMessage :=
  match tr with
  | [] => []
  | Listen _ :: rest => flat_map delivered_by rest
  | Called _ _ :: rest => heard rest
  end.

(** The calls made after the first handler registration. *)
Fixpoint since_listen (tr : list entry) : list entry :=
  match tr with
  | [] => []
  | Listen _ :: rest => rest
  | Called _ _ :: rest => since_listen rest
  end.

(** The site of the scripts, and the URLs each script names. *)
Definition home : string := "http://localhost:8000".
Definition login : string := "http://localhost:8000/login.php".
Definition users : string := "http://localhost:8000/api/users.php".
Definition register : string := "http://localhost:8000/register.php".
Definition dashboard : string := "http://localhost:8000/dashboard.php".
Definition profile : string := "http://localhost:8000/profile.php".

Definition server_testing_urls : list string := [home].
Definition testing_example_urls : list string :=
  [login; users; register; dashboard; profile].

(** A URL of the site: its origin, or a path under the origin. *)
Definition local_site (url : string) : bool :=
  String.eqb url home || Py.startswith url (home ++ "/").
Definition under_tmp (path : string) : bool := Py.startswith path "/tmp/".

(** The lines [php_server_testing.py] prints about links. *)
Definition found_line (n : nat) : string :=
  Py.nl ++ "Found " ++ Py.str_of_nat n ++ " links:".

Record detail : Type := mkDetail {
  d_link : Locator;
  d_href : option string;
  d_text : string
}.

Definition detail_line (d : detail) : string :=
  "  - " ++ Py.strip (d_text d) ++ " -> " ++ Py.str_of_optional (d_href d).

Definition is_detail (line : string) : bool := Py.startswith line "  - ".
Definition is_found (line : string) : bool :=
  Py.startswith line (Py.nl ++ "Found ").

(** The screenshot files each script names. *)
Definition server_testing_files : list string := ["/tmp/php_app_test.png"].
Definition testing_example_files : list string :=
  ["/tmp/php_login_page.png"; "/tmp/php_profile_page.png"].

(** What a script may ask of the browser for its gotos and screenshots to
    stay on the named URLs and on the named files. *)
Definition permitted (urls files : list string) {T : Type} (a : api T) : bool :=
  match a with
  | Goto url => existsb (String.eqb url) urls
  | Screenshot path _ => existsb (String.eqb path) files
  | _ => true
  end.

(* ===================================================================== *)
(** ** Reasoning about scripts *)
(* ===================================================================== *)

Section Logic.

Context {Browser : Type} {PW : Playwright Browser}.

  (** [P] survives the command however it ends. *)
Definition always (P : World Browser -> Prop) {A : Type} (m : M Browser A) : Prop :=
    forall w, P w -> P (snd (m w)).

  (** From [P], the command ends in [Q]. *)
Definition hoare (P : World Browser -> Prop) {A : Type} (m : M Browser A)
             (Q : result A -> World Browser -> Prop) : Prop :=
    forall w, P w -> Q (fst (m w)) (snd (m w)).

  (** The command never ends in an [IndexError]. *)
Definition index_safe {A : Type} (m : M Browser A) : Prop :=
    forall w, fst (m w) <> Raise IndexError.

  (** Gotos stay on the named URLs and screenshots on the named files. *)
Definition confined (urls files : list string) (w : World Browser) : Prop :=
    Forall (fun url => In url urls) (navigations (trace w)) /\
    Forall (fun path => In path files) (screenshots (trace w)).

End Logic.

Local Open Scope list_scope.

(* ===================================================================== *)
(** ** The console capture of [php_testing_example.py] *)
(* ===================================================================== *)

(** A call that came back without a library error. *)
Definition succeeded (e : entry) : bool :=
  match e with
  | Called _ r => match outcome r with inr _ => true | inl _ => false end
  | Listen _ => true
  end.

(** The two kinds of lines Example 4 prints. *)
Definition is_captured (line : string) : bool :=
  Py.startswith line (Py.nl ++ "Captured ")%string.
Definition is_log (line : string) : bool := Py.startswith line "  ".

(** What [console_logs] holds once the calls [e1] and [e2] have returned. *)
Definition first_logs (e1 e2 : entry) : list string :=
  map format_console (delivered_by e1 ++ delivered_by e2).

Section CaptureDefs.

Context {Browser : Type} {PW : Playwright Browser}.

(** Lines 11-63: the browser setup and Examples 1 to 3. *)
Definition examples_1_to_3 : M Browser unit :=
  bind setup (fun _ => bind example_1 (fun _ => bind example_2 (fun _ => example_3))).

(** Lines 65-95: Examples 4 and 5 and the end of the script. *)
Definition examples_4_to_end : M Browser unit :=
  bind example_4 (fun _ =>
  bind example_5 (fun _ =>
  bind (call Close) (fun _ =>
  print (Py.nl ++ "PHP application testing completed!")%string))).

(** [P] when the command returns, [F] when it raises. *)
Definition staged (P F : World Browser -> Prop) {A : Type}
           (r : result A) (w : World Browser) : Prop :=
  match r with
  | Ok _ => P w
  | Raise _ => F w
  end.

(** No handler is attached and no list exists; [navs] are the gotos so far. *)
Definition quiet (navs : list string) (w : World Browser) : Prop :=
  listeners w = [] /\ heap w = [] /\ registrations (trace w) = [] /\
  navigations (trace w) = navs /\
  filter is_captured (stdout w) = [] /\ filter is_log (stdout w) = [].

(** [handle_console] was attached after [before]; the calls [after] have
    been made since, and [console_logs] holds what they delivered. *)
Definition told (before after : list entry) (cs ls : list string)
           (w : World Browser) : Prop :=
  listeners w = [handle_console 0] /\
  trace w = before ++ Listen "console" :: after /\
  registrations after = [] /\
  heap w = [map format_console (flat_map delivered_by after)] /\
  filter is_captured (stdout w) = cs /\ filter is_log (stdout w) = ls.

(** The state of the capture at the end of a run that reached Example 4
    and ended in [r]: once the goto and the wait have returned the count is
    printed, and the logs are printed in order up to the end or up to the
    first line the stream cannot encode, where the run stops. *)
Definition captured (before : list entry) (r : result unit)
           (w : World Browser) : Prop :=
  exists after cs ls,
    told before after cs ls w /\
    (exists e rest, after = e :: rest /\ navigation e = [dashboard]) /\
    (forall e1 e2 rest, after = e1 :: e2 :: rest ->
       succeeded e1 = true -> succeeded e2 = true ->
       cs = [captured_line (length (first_logs e1 e2))] /\
       exists done left,
         first_logs e1 e2 = done ++ left /\
         ls = map log_line done /\
         (left = [] \/
          exists log more,
            left = log :: more /\ printable (log_line log) = false /\
            rest = [] /\ r = Raise UnicodeEncodeError)).

(** The logs have been read and printed. *)
Definition reading (before : list entry) (w : World Browser) : Prop :=
  exists e1 e2 more,
    navigation e1 = [dashboard] /\ succeeded e1 = true /\ succeeded e2 = true /\
    told before (e1 :: e2 :: more)
         [captured_line (length (first_logs e1 e2))]
         (map log_line (first_logs e1 e2)) w.

(** With no handler attached the lists are left alone. *)
Definition unheard (h : Heap) (w : World Browser) : Prop :=
  listeners w = [] /\ heap w = h.

End CaptureDefs.

(* ===================================================================== *)
(** ** The course of a run *)
(* ===================================================================== *)

(** The calls of a run that move the browser or leave something behind. *)
Inductive action : Type :=
| Went (url : string)
| Clicked (l : Locator)
| Shot (path : string)
| Listening (event : string)
| Closed.

Definition journey (e : entry) : list action :=
  match e with
  | Called a _ =>
      match a with
      | Goto url => [Went url]
      | ClickLocator l => [Clicked l]
      | Screenshot path _ => [Shot path]
      | Close => [Closed]
      | _ => []
      end
  | Listen ev => [Listening ev]
  end.

Definition itinerary (tr : list entry) : list action := flat_map journey tr.

Definition is_closed (s : action) : bool :=
  match s with
  | Closed => true
  | _ => false
  end.

(** The message of the library error a call came back with. *)
Definition error_of (e : entry) : option string :=
  match e with
  | Called _ r => match outcome r with inl what => Some what | inr _ => None end
  | Listen _ => None
  end.

(** The last line of either script. *)
Definition server_testing_done : string := "PHP server testing completed!".
Definition testing_example_done : string :=
  (Py.nl ++ "PHP application testing completed!")%string.

Definition is_done (line : string) : bool :=
  Py.startswith line server_testing_done || Py.startswith line testing_example_done.

(** The value of a successful [is_visible], and the line Example 5 prints
    for it. *)
Definition visible_read (e : entry) : list bool :=
  match e with
  | @Called T a r =>
      match a in api T0 return reply T0 -> list bool with
      | IsVisible _ => fun r0 => match outcome r0 with inr v => [v] | inl _ => [] end
      | _ => fun _ => []
      end r
  | Listen _ => []
  end.

Definition visibles (tr : list entry) : list bool := flat_map visible_read tr.

Definition session_line (visible : bool) : string :=
  if visible
  then "Session maintained - user still logged in"
  else "Session lost - user logged out".

Definition is_session (line : string) : bool := Py.startswith line "Session ".

Section CourseDefs.

Context {Browser : Type} {PW : Playwright Browser}.

(** [P] when the command returns, [F e] when it raises [e]. *)
Definition guarded (P : World Browser -> Prop) (F : exn -> World Browser -> Prop)
           {A : Type} (r : result A) (w : World Browser) : Prop :=
  match r with
  | Ok _ => P w
  | Raise e => F e w
  end.

(** Every call so far has succeeded, the browser is not closed and the
    last line is not printed. *)
Definition underway (ls : list (list Locator)) (steps : list action)
           (w : World Browser) : Prop :=
  forallb succeeded (trace w) = true /\
  links_found (trace w) = ls /\
  itinerary (trace w) = steps /\
  existsb is_closed steps = false /\
  filter is_done (stdout w) = [].

(** The run ended with [e], the last line not printed: either its last
    call failed with [e], the calls before it having succeeded and none of
    them being [browser.close()]; or every call had succeeded, the browser
    was not closed and a [print] raised. *)
Definition stopped (e : exn) (w : World Browser) : Prop :=
  filter is_done (stdout w) = [] /\
  ((exists what tr l,
      e = PlaywrightError what /\ trace w = tr ++ [l] /\
      forallb succeeded tr = true /\ error_of l = Some what /\
      existsb is_closed (itinerary tr) = false) \/
   (e = UnicodeEncodeError /\
    forallb succeeded (trace w) = true /\
    existsb is_closed (itinerary (trace w)) = false)).

(** Every call has succeeded and the last of them closed the browser. *)
Definition ended (ds : list string) (ls : list (list Locator))
           (steps : list action) (w : World Browser) : Prop :=
  forallb succeeded (trace w) = true /\
  links_found (trace w) = ls /\
  itinerary (trace w) = steps ++ [Closed] /\
  existsb is_closed steps = false /\
  filter is_done (stdout w) = ds.

(** The session lines printed are those of the visibility checks made. *)
Definition session (vs : list bool) (w : World Browser) : Prop :=
  visibles (trace w) = vs /\
  filter is_session (stdout w) = map session_line vs.

Definition session_checked (w : World Browser) : Prop :=
  exists vs, session vs w /\ length vs <= 1.

End CourseDefs.

(* ===================================================================== *)
(** ** What Examples 1 to 3 print about the page *)
(* ===================================================================== *)

(** The words [php_testing_example.py] puts before the text of an element
    it reads, by the selector of the element. *)
Definition caption (sel : string) : option string :=
  if String.eqb sel ".welcome-message" then Some "Login successful! Message: "%string
  else if String.eqb sel ".error-message" then Some "Validation error displayed: "%string
  else if String.eqb sel ".success-message" then Some "Registration successful: "%string
  else None.

(** The line printed for a reading of the page that returned. *)
Definition report (e : entry) : list string :=
  match e with
  | @Called T a r =>
      match a in api T0 return reply T0 -> list string with
      | InnerText (Css sel) =>
          fun r0 => match outcome r0, caption sel with
                    | inr v, Some c => [(c ++ v)%string]
                    | _, _ => []
                    end
      | Content =>
          fun r0 => match outcome r0 with
                    | inr v => [("API Response: " ++ v)%string]
                    | inl _ => []
                    end
      | _ => fun _ => []
      end r
  | Listen _ => []
  end.

Definition is_report (line : string) : bool :=
  existsb (Py.startswith line)
          ["Login successful! Message: "%string; "API Response: "%string;
           "Validation error displayed: "%string; "Registration successful: "%string].

Section ReportDefs.

Context {Browser : Type} {PW : Playwright Browser}.

(** The report lines printed are those of the readings made. *)
Definition mirrored (w : World Browser) : Prop :=
  filter is_report (stdout w) = flat_map report (trace w).

(** The line of the last reading is yet to be printed. *)
Definition owing (line : string) (w : World Browser) : Prop :=
  flat_map report (trace w) = filter is_report (stdout w) ++ [line].

(** At the end of a run that ended in [r], the report lines printed are
    those of the readings made, but for the line of the last reading when
    the stream could not encode it and the run stopped there. *)
Definition accounted (r : result unit) (w : World Browser) : Prop :=
  exists pending,
    flat_map report (trace w) = filter is_report (stdout w) ++ pending /\
    (pending = [] \/
     exists line,
       pending = [line] /\ printable line = false /\
       r = Raise UnicodeEncodeError).

End ReportDefs.

(* ===================================================================== *)
(** ** What [php_server_testing.py] prints *)
(* ===================================================================== *)

(** The value of a successful [page.title()]. *)
Definition title_read (e : entry) : list string :=
  match e with
  | @Called T a r =>
      match a in api T0 return reply T0 -> list string with
      | Title => fun r0 => match outcome r0 with inr v => [v] | inl _ => [] end
      | _ => fun _ => []
      end r
  | Listen _ => []
  end.

Definition titles (tr : list entry) : list string := flat_map title_read tr.

(** The lines of the script other than those about the links found. *)
Definition title_line (title : string) : string := ("Page title: " ++ title)%string.
Definition clicking_line (text : string) : string :=
  (Py.nl ++ "Clicking first link: " ++ text)%string.
Definition navigated_line (url : string) : string := ("Navigated to: " ++ url)%string.
Definition saved_line : string :=
  (Py.nl ++ "Screenshot saved to /tmp/php_app_test.png")%string.

Section TranscriptDefs.

Context {Browser : Type} {PW : Playwright Browser}.

(** What has been read from the page and what has been printed. *)
Definition wrote (ts : list string) (ls : list (list Locator))
           (hs : list (Locator * option string)) (xs : list (Locator * string))
           (lines : list string) (w : World Browser) : Prop :=
  titles (trace w) = ts /\
  links_found (trace w) = ls /\
  hrefs_read (trace w) = hs /\
  texts_read (trace w) = xs /\
  stdout w = lines.

(** A postcondition for the runs that return. *)
Definition returning (P : World Browser -> Prop) {A : Type}
           (r : result A) (w : World Browser) : Prop :=
  match r with
  | Ok _ => P w
  | Raise _ => True
  end.

(** The readings and the output of a run that returned. *)
Definition transcript (w : World Browser) : Prop :=
  exists title links ds,
    titles (trace w) = [title] /\
    links_found (trace w) = [links] /\
    map d_link ds = firstn 5 links /\
    hrefs_read (trace w) = map (fun d => (d_link d, d_href d)) ds /\
    match links with
    | [] =>
        texts_read (trace w) = map (fun d => (d_link d, d_text d)) ds /\
        stdout w =
          [title_line title; found_line (length links)] ++ map detail_line ds ++
          [saved_line; server_testing_done]
    | first_link :: _ =>
        exists text url,
          texts_read (trace w) = map (fun d => (d_link d, d_text d)) ds ++ [(first_link, text)] /\
          stdout w =
            [title_line title; found_line (length links)] ++ map detail_line ds ++
            [clicking_line text; navigated_line url; saved_line; server_testing_done]
    end.

End TranscriptDefs.

(* ===================================================================== *)
(** ** Facts about the monad and the history *)
(* ===================================================================== *)

Section Rules.

Context {Browser : Type} {PW : Playwright Browser}.

Local Open Scope script_scope.
Notation "x <- m ;; k" := (bind m (fun x => k))
    (at level 61, m at next level, right associativity) : script_scope.
Notation "m ;; k" := (bind m (fun _ => k))
    (at level 61, right associativity) : script_scope.

Lemma call_unfold (T : Type) (a : api T) (w : World Browser) :
    call a w =
    (result_of (fst (respond T a (browser w))),
     after_call w a (fst (respond T a (browser w)))
                (snd (respond T a (browser w)))).
Proof.
    unfold call. destruct (respond T a (browser w)); reflexivity.
Qed.

Lemma hoare_bind {A B : Type} (P : World Browser -> Prop)
        (R : A -> World Browser -> Prop)
        (Q : result B -> World Browser -> Prop)
        (m : M Browser A) (k : A -> M Browser B) :
    hoare P m (fun r w => match r with
                          | Ok a => R a w
                          | Raise e => Q (Raise e) w
                          end) ->
    (forall a, hoare (R a) (k a) Q) ->
    hoare P (bind m k) Q.
Proof.
    intros Hm Hk w HP. specialize (Hm w HP). unfold bind.
    destruct (m w) as [[a | e] w']; simpl in *.
    - apply Hk; assumption.
    - assumption.
Qed.

Lemma hoare_weaken {A : Type} (P P' : World Browser -> Prop)
        (Q Q' : result A -> World Browser -> Prop) (m : M Browser A) :
    hoare P' m Q' ->
    (forall w, P w -> P' w) ->
    (forall r w, Q' r w -> Q r w) ->
    hoare P m Q.
Proof. intros H HP HQ w Hw. apply HQ, H, HP, Hw. Qed.

Lemma hoare_call {T : Type} (P : World Browser -> Prop) (a : api T)
        (Q : result T -> World Browser -> Prop) :
    (forall w r b', P w -> Q (result_of r) (after_call w a r b')) ->
    hoare P (call a) Q.
Proof. intros H w HP. rewrite call_unfold. simpl. apply H, HP. Qed.

Lemma hoare_print (P : World Browser -> Prop) (s : string)
        (Q : result unit -> World Browser -> Prop) :
    (forall w, P w -> printable s = true -> Q (Ok tt) (after_print w s)) ->
    (forall w, P w -> printable s = false -> Q (Raise UnicodeEncodeError) w) ->
    hoare P (print s) Q.
Proof.
    intros H1 H2 w HP. unfold print.
    destruct (printable s) eqn:E; simpl; auto.
Qed.

  (** ASCII text is always printed. *)
Lemma printable_ascii (s : string) : Py.isascii s = true -> printable s = true.
Proof. intros H. unfold printable. now rewrite H. Qed.

Lemma isascii_app (s t : string) :
    Py.isascii (s ++ t)%string = Py.isascii s && Py.isascii t.
Proof.
    induction s as [| c s IH]; simpl; [reflexivity |].
    now rewrite IH, andb_assoc.
Qed.

Lemma isascii_uint (u : Decimal.uint) :
    Py.isascii (NilEmpty.string_of_uint u) = true.
Proof. induction u; simpl; trivial. Qed.

Lemma isascii_str_of_nat (n : nat) : Py.isascii (Py.str_of_nat n) = true.
Proof. apply isascii_uint. Qed.

Lemma hoare_print_ascii (P : World Browser -> Prop) (s : string)
        (Q : result unit -> World Browser -> Prop) :
    Py.isascii s = true ->
    (forall w, P w -> Q (Ok tt) (after_print w s)) ->
    hoare P (print s) Q.
Proof.
    intros Ha H w HP. unfold print. rewrite (printable_ascii s Ha). simpl. auto.
Qed.

Lemma hoare_ret {A : Type} (P : World Browser -> Prop) (a : A)
        (Q : result A -> World Browser -> Prop) :
    (forall w, P w -> Q (Ok a) w) -> hoare P (ret a) Q.
Proof. intros H w HP. simpl. apply H, HP. Qed.

Lemma always_hoare {A : Type} (P : World Browser -> Prop) (m : M Browser A) :
    always P m <-> hoare P m (fun _ w => P w).
Proof. split; intros H w HP; apply H, HP. Qed.

Lemma always_ret {A : Type} (P : World Browser -> Prop) (a : A) :
    always P (ret a).
Proof. intros w HP. exact HP. Qed.

Lemma always_raise {A : Type} (P : World Browser -> Prop) (e : exn) :
    always P (@raise Browser A e).
Proof. intros w HP. exact HP. Qed.

Lemma always_bind {A B : Type} (P : World Browser -> Prop)
        (m : M Browser A) (k : A -> M Browser B) :
    always P m -> (forall a, always P (k a)) -> always P (bind m k).
Proof.
    intros Hm Hk w HP. specialize (Hm w HP). unfold bind.
    destruct (m w) as [[a | e] w']; simpl in *.
    - apply Hk; assumption.
    - assumption.
Qed.

Lemma always_bind_ret {A B : Type} (P : World Browser -> Prop)
        (a : A) (k : A -> M Browser B) :
    always P (k a) -> always P (bind (ret a) k).
Proof. intros H w HP. apply H, HP. Qed.

Lemma always_call {T : Type} (P : World Browser -> Prop) (a : api T) :
    (forall w r b', P w -> P (after_call w a r b')) -> always P (call a).
Proof. intros H w HP. rewrite call_unfold. simpl. apply H, HP. Qed.

Lemma always_print (P : World Browser -> Prop) (s : string) :
    (forall w, P w -> P (after_print w s)) -> always P (print s).
Proof.
    intros H w HP. unfold print. destruct (printable s); simpl; auto.
Qed.

Lemma always_page_url (P : World Browser -> Prop) : always P page_url.
Proof. intros w HP. exact HP. Qed.

Lemma always_read_list (P : World Browser -> Prop) (r : ref) :
    always P (read_list r).
Proof. intros w HP. exact HP. Qed.

Lemma always_index {A : Type} (P : World Browser -> Prop) (l : list A) (i : nat) :
    always P (index l i).
Proof.
    unfold index. destruct (nth_error l i); [apply always_ret | apply always_raise].
Qed.

Lemma always_for_each {A : Type} (P : World Browser -> Prop) (l : list A)
        (body : A -> M Browser unit) :
    (forall x, always P (body x)) -> always P (for_each l body).
Proof.
    intros Hbody. induction l as [| x rest IH]; simpl.
    - apply always_ret.
    - apply always_bind; [apply Hbody | intros _; exact IH].
Qed.

  (** The observers distribute over the growth of the history. *)
Lemma navigations_snoc tr e : navigations (tr ++ [e]) = navigations tr ++ navigation e.
Proof. unfold navigations. rewrite flat_map_app. simpl. now rewrite app_nil_r. Qed.

Lemma screenshots_snoc tr e : screenshots (tr ++ [e]) = screenshots tr ++ screenshot e.
Proof. unfold screenshots. rewrite flat_map_app. simpl. now rewrite app_nil_r. Qed.

Lemma clicks_snoc tr e : clicks (tr ++ [e]) = clicks tr ++ click e.
Proof. unfold clicks. rewrite flat_map_app. simpl. now rewrite app_nil_r. Qed.

Lemma links_found_snoc tr e : links_found (tr ++ [e]) = links_found tr ++ found e.
Proof. unfold links_found. rewrite flat_map_app. simpl. now rewrite app_nil_r. Qed.

Lemma hrefs_read_snoc tr e : hrefs_read (tr ++ [e]) = hrefs_read tr ++ href_read e.
Proof. unfold hrefs_read. rewrite flat_map_app. simpl. now rewrite app_nil_r. Qed.

Lemma texts_read_snoc tr e : texts_read (tr ++ [e]) = texts_read tr ++ text_read e.
Proof. unfold texts_read. rewrite flat_map_app. simpl. now rewrite app_nil_r. Qed.

Lemma registrations_snoc tr e :
    registrations (tr ++ [e]) = registrations tr ++ registration e.
Proof. unfold registrations. rewrite flat_map_app. simpl. now rewrite app_nil_r. Qed.

  (** *** Confinement to the local site and the named files *)

Lemma confined_call urls files (T : Type) (a : api T) :
    permitted urls files a = true ->
    forall (w : World Browser) r b',
      confined urls files w -> confined urls files (after_call w a r b').
Proof.
    intros Hok w r b' [Hnav Hshot]. unfold confined, after_call; simpl.
    rewrite navigations_snoc, screenshots_snoc. split; apply Forall_app; split; trivial.
    - destruct a; simpl in *; auto. constructor; [| constructor].
      apply existsb_exists in Hok. destruct Hok as [f [Hin Heq]].
      apply String.eqb_eq in Heq. now subst.
    - destruct a; simpl in *; auto. constructor; [| constructor].
      apply existsb_exists in Hok. destruct Hok as [f [Hin Heq]].
      apply String.eqb_eq in Heq. now subst.
Qed.

Lemma confined_print urls files s (w : World Browser) :
    confined urls files w -> confined urls files (after_print w s).
Proof. intros H; exact H. Qed.

End Rules.

Create HintDb script.

#[local] Hint Resolve always_ret always_raise always_page_url always_read_list
  always_index confined_print : script.

(** Walks through a script whose every step keeps the invariant. *)
Ltac walk side :=
  repeat first
    [ apply always_bind; [| intros ? ]
    | apply always_for_each; intros ?
    | apply always_call; side
    | apply always_print; side
    | solve [ auto with script ]
    | match goal with
      | |- always _ (if ?c then _ else _) => destruct c
      end ].

Section Confinement.

Context {Browser : Type} {PW : Playwright Browser}.

Lemma server_testing_confined :
    always (confined server_testing_urls server_testing_files)
           (@php_server_testing Browser PW).
Proof.
    unfold php_server_testing.
    walk ltac:(first [ apply confined_call; reflexivity | apply confined_print ]).
Qed.

Lemma testing_example_confined :
    always (confined testing_example_urls testing_example_files)
           (@php_testing_example Browser PW).
Proof.
    unfold php_testing_example, setup, example_1, example_2, example_3,
      example_4, example_5.
    walk ltac:(first [ apply confined_call; reflexivity | apply confined_print ]).
    - intros w H; exact H.
    - intros w H. destruct H as [Hn Hs]. split; simpl;
        [ rewrite navigations_snoc | rewrite screenshots_snoc ];
        simpl; rewrite app_nil_r; assumption.
Qed.

End Confinement.

(** C6. In both example scripts every [page.goto] goes to one of the
    URLs the script names, each of them the origin [http://localhost:8000]
    itself or a path under that origin, and every screenshot is written to
    one of the constant paths under [/tmp] that the script names; this
    holds whatever the browser and the site answer, and the scripts take
    no input from which a port or a path could come. *)
Theorem scripts_hardcode_site_and_files
        (Browser : Type) (PW : Playwright Browser) (b : Browser) :
  let t1 := trace (snd (php_server_testing (initial b))) in
  let t2 := trace (snd (php_testing_example (initial b))) in
  (Forall (fun url => In url server_testing_urls /\ local_site url = true)
          (navigations t1) /\
   Forall (fun path => In path server_testing_files /\ under_tmp path = true)
          (screenshots t1)) /\
  (Forall (fun url => In url testing_example_urls /\ local_site url = true)
          (navigations t2) /\
   Forall (fun path => In path testing_example_files /\ under_tmp path = true)
          (screenshots t2)).
Proof.
  assert (Hinit : forall urls files, confined urls files (initial b)).
  { intros urls files. split; constructor. }
  pose proof (server_testing_confined (initial b) (Hinit _ _)) as [N1 S1].
  pose proof (testing_example_confined (initial b) (Hinit _ _)) as [N2 S2].
  cbv zeta. split; split.
  - eapply Forall_impl; [| exact N1]. intros u Hu. split; [exact Hu |].
    simpl in Hu. destruct Hu as [<- | []]. reflexivity.
  - eapply Forall_impl; [| exact S1]. intros p Hp. split; [exact Hp |].
    simpl in Hp. destruct Hp as [<- | []]. reflexivity.
  - eapply Forall_impl; [| exact N2]. intros u Hu. split; [exact Hu |].
    simpl in Hu. destruct Hu as [<- | [<- | [<- | [<- | [<- | []]]]]]; reflexivity.
  - eapply Forall_impl; [| exact S2]. intros p Hp. split; [exact Hp |].
    simpl in Hp. destruct Hp as [<- | [<- | []]]; reflexivity.
Qed.

(* ===================================================================== *)
(** ** The guarded access to the first link *)
(* ===================================================================== *)

Section Guard.

Context {Browser : Type} {PW : Playwright Browser}.

Lemma index_safe_ret {A : Type} (a : A) : index_safe (@ret Browser A a).
Proof. intros w. discriminate. Qed.

Lemma index_safe_bind {A B : Type} (m : M Browser A) (k : A -> M Browser B) :
    index_safe m -> (forall a, index_safe (k a)) -> index_safe (bind m k).
Proof.
    intros Hm Hk w. specialize (Hm w). unfold bind.
    destruct (m w) as [[a | e] w']; simpl in *; [apply Hk |].
    intros Heq. apply Hm. inversion Heq. reflexivity.
Qed.

Lemma index_safe_call {T : Type} (a : api T) : index_safe (call a).
Proof.
    intros w. rewrite call_unfold. simpl. unfold result_of.
    destruct (outcome _); discriminate.
Qed.

Lemma index_safe_print (s : string) : index_safe (@print Browser PW s).
Proof. intros w. unfold print. destruct (printable s); discriminate. Qed.

Lemma index_safe_page_url : index_safe (@page_url Browser PW).
Proof. intros w. discriminate. Qed.

Lemma index_safe_for_each {A : Type} (l : list A) (body : A -> M Browser unit) :
    (forall x, index_safe (body x)) -> index_safe (for_each l body).
Proof.
    intros Hbody. induction l as [| x rest IH]; simpl.
    - apply index_safe_ret.
    - apply index_safe_bind; [apply Hbody | intros _; exact IH].
Qed.

  (** Under the guard [if links:] the list has a first element. *)
Lemma truthy_index {A : Type} (l : list A) :
    Py.truthy l = true -> exists x, nth_error l 0 = Some x.
Proof.
    destruct l as [| x rest]; [discriminate | intros _; exists x; reflexivity].
Qed.

Lemma truthy_nonempty {A : Type} (l : list A) : Py.truthy l = true <-> l <> [].
Proof.
    destruct l; simpl; split; intros H; try reflexivity; try discriminate.
    now elim H.
Qed.

Lemma server_testing_index_safe : index_safe (@php_server_testing Browser PW).
Proof.
    unfold php_server_testing.
    repeat first
      [ apply index_safe_bind; [| intros ? ]
      | apply index_safe_call
      | apply index_safe_print
      | apply index_safe_page_url
      | apply index_safe_ret
      | apply index_safe_for_each; intros ? ].
    match goal with |- index_safe (if Py.truthy ?l then _ else _) => rename l into links end.
    destruct (Py.truthy links) eqn:Hguard; [| apply index_safe_ret].
    destruct (truthy_index links Hguard) as [first_link Hfirst].
    unfold index. rewrite Hfirst.
    repeat first
      [ apply index_safe_bind; [| intros ? ]
      | apply index_safe_call
      | apply index_safe_print
      | apply index_safe_page_url
      | apply index_safe_ret ].
Qed.

End Guard.

Section Clicks.

Context {Browser : Type} {PW : Playwright Browser}.

  (** What has been located so far, and what may have been clicked. *)
Definition seen (ls : list (list Locator)) (allowed : list Locator)
             (w : World Browser) : Prop :=
    links_found (trace w) = ls /\ incl (clicks (trace w)) allowed.

  (** Whatever was clicked was the first of the links found. *)
Definition clicked_first (w : World Browser) : Prop :=
    forall l, In l (clicks (trace w)) ->
              exists links, links_found (trace w) = [links] /\ nth_error links 0 = Some l.

Lemma seen_call ls allowed (T : Type) (a : api T) :
    (forall r, found (Called a r) = []) ->
    (forall r, incl (click (Called a r)) allowed) ->
    forall (w : World Browser) r b',
      seen ls allowed w -> seen ls allowed (after_call w a r b').
Proof.
    intros Hf Hc w r b' [Hls Hcl]. unfold seen, after_call; simpl.
    rewrite links_found_snoc, clicks_snoc, Hf, app_nil_r. split; [exact Hls |].
    apply incl_app; [exact Hcl | apply Hc].
Qed.

Lemma seen_print ls allowed s (w : World Browser) :
    seen ls allowed w -> seen ls allowed (after_print w s).
Proof. intros H; exact H. Qed.

Lemma seen_more ls allowed allowed' (w : World Browser) :
    incl allowed allowed' -> seen ls allowed w -> seen ls allowed' w.
Proof. intros Hi [H1 H2]. split; [exact H1 | eapply incl_tran; eassumption]. Qed.

Lemma seen_clicked_first ls allowed (w : World Browser) :
    (allowed = [] \/
     exists links, ls = [links] /\ forall l, In l allowed -> nth_error links 0 = Some l) ->
    seen ls allowed w -> clicked_first w.
Proof.
    intros Hcase [Hls Hcl] l Hl. apply Hcl in Hl.
    destruct Hcase as [-> | [links [-> Hfirst]]]; [destruct Hl |].
    exists links. split; [exact Hls | apply Hfirst, Hl].
Qed.

Lemma hoare_after {A B : Type} (I : World Browser -> Prop)
        (Q : result B -> World Browser -> Prop)
        (m : M Browser A) (k : A -> M Browser B) :
    always I m ->
    (forall e w, I w -> Q (Raise e) w) ->
    (forall a, hoare I (k a) Q) ->
    hoare I (bind m k) Q.
Proof.
    intros Hm He Hk. apply hoare_bind with (R := fun _ => I); [| exact Hk].
    intros w HI. specialize (Hm w HI). destruct (fst (m w)); [exact Hm | apply He, Hm].
Qed.

Lemma hoare_of_always {A : Type} (I : World Browser -> Prop)
        (Q : result A -> World Browser -> Prop) (m : M Browser A) :
    always I m -> (forall r w, I w -> Q r w) -> hoare I m Q.
Proof. intros Hm HQ w HI. apply HQ, Hm, HI. Qed.

Lemma hoare_skip {A B : Type} (Q : result B -> World Browser -> Prop)
        (m : M Browser A) (k : A -> M Browser B) :
    (forall e w, Q (Raise e) w) ->
    (forall a, hoare (fun _ => True) (k a) Q) ->
    hoare (fun _ => True) (bind m k) Q.
Proof.
    intros He Hk. apply hoare_after; [intros w _; exact I | intros; apply He | exact Hk].
Qed.

End Clicks.

Ltac seen_side :=
  first
    [ apply seen_print
    | apply seen_call;
      [ intros ?; reflexivity
      | intros ? ? ?; first [ assumption | contradiction ] ] ].

Section FirstLink.

Context {Browser : Type} {PW : Playwright Browser}.

Lemma server_testing_clicks :
    hoare (seen [] []) (@php_server_testing Browser PW) (fun _ w => clicked_first w).
Proof.
    unfold php_server_testing.
    do 6 (apply hoare_after;
          [ walk seen_side
          | intros ? ?; apply seen_clicked_first; now left
          | intros ? ]).
    apply hoare_bind with (R := fun links => seen [links] []).
    { apply hoare_call. intros w r b' [Hls Hcl]. unfold result_of.
      assert (Hcl' : incl (clicks (trace (after_call w (All (Css "a[href]")) r b'))) []).
      { simpl. rewrite clicks_snoc. simpl. now rewrite app_nil_r. }
      destruct (outcome r) as [what | links] eqn:Hout.
      - eapply seen_clicked_first with (ls := []) (allowed := []); [now left |].
        split; [| exact Hcl']. simpl. rewrite links_found_snoc. simpl.
        rewrite Hout, Hls. reflexivity.
      - split; [| exact Hcl']. simpl. rewrite links_found_snoc. simpl.
        rewrite Hout, Hls. reflexivity. }
    intros links.
    do 2 (apply hoare_after;
          [ walk seen_side
          | intros ? ?; apply seen_clicked_first; now left
          | intros ? ]).
    destruct links as [| first_link others]; simpl.
    - apply hoare_of_always; [walk seen_side |].
      intros ? ?. apply seen_clicked_first. now left.
    - apply hoare_weaken with (P' := seen [first_link :: others] [first_link])
                              (Q' := fun _ w => clicked_first w);
        [| intros w; apply seen_more; intros ? [] | trivial].
      apply hoare_of_always;
        [apply always_bind; [apply always_bind_ret; walk seen_side | intros ?; walk seen_side] |].
      intros ? ?. apply seen_clicked_first. right.
      exists (first_link :: others). split; [reflexivity |].
      intros l [<- | []]. reflexivity.
Qed.

  (** Once taken, the screenshot stays on record. *)
Definition shot (path : string) (w : World Browser) : Prop :=
    In path (screenshots (trace w)).

Lemma shot_call path (T : Type) (a : api T) (w : World Browser) r b' :
    shot path w -> shot path (after_call w a r b').
Proof.
    unfold shot, after_call; simpl. rewrite screenshots_snoc.
    intros H. apply in_or_app. now left.
Qed.

Lemma server_testing_reaches_screenshot :
    hoare (fun _ => True) (@php_server_testing Browser PW)
          (fun r w => r = Ok tt -> shot "/tmp/php_app_test.png" w).
Proof.
    unfold php_server_testing.
    do 10 (apply hoare_skip; [ discriminate | intros ? ]).
    apply hoare_bind with (R := fun _ => shot "/tmp/php_app_test.png").
    - apply hoare_call. intros w r b' _. unfold result_of.
      destruct (outcome r); [discriminate |].
      unfold shot; simpl. rewrite screenshots_snoc. apply in_or_app. right. now left.
    - intros _. apply hoare_of_always; [| intros; assumption].
      walk ltac:(first [ apply shot_call | intros ? H; exact H ]).
Qed.

End FirstLink.

(** C8. [links[0]] and the click on it run only under [if links:], so the
    script never ends in an [IndexError], whatever the page; the only
    element it ever clicks is the first of the links it found, and on a
    page without links it clicks nothing; and it makes the screenshot call
    unless a library call or a [print] raised before, also on a page
    without links. *)
Theorem first_link_access_is_guarded
        (Browser : Type) (PW : Playwright Browser) (b : Browser) :
  let r := fst (php_server_testing (initial b)) in
  let w := snd (php_server_testing (initial b)) in
  r <> Raise IndexError /\
  (forall l, In l (clicks (trace w)) ->
             exists links, links_found (trace w) = [links] /\
                           nth_error links 0 = Some l) /\
  (links_found (trace w) = [[]] -> clicks (trace w) = []) /\
  (In "/tmp/php_app_test.png"%string (screenshots (trace w)) \/
   (exists what, r = Raise (PlaywrightError what)) \/
   r = Raise UnicodeEncodeError).
Proof.
  intros r w.
  assert (Hsafe : r <> Raise IndexError) by apply server_testing_index_safe.
  assert (Hclicks : forall l, In l (clicks (trace w)) ->
                      exists links, links_found (trace w) = [links] /\
                                    nth_error links 0 = Some l).
  { apply server_testing_clicks. split; [reflexivity | intros ? []]. }
  split; [exact Hsafe |]. split; [exact Hclicks |]. split.
  - intros Hnone. destruct (clicks (trace w)) as [| l rest] eqn:Hc; [reflexivity |].
    destruct (Hclicks l (or_introl eq_refl)) as (links & Hl & Hfirst).
    rewrite Hnone in Hl. injection Hl as <-. discriminate.
  - pose proof (server_testing_reaches_screenshot (initial b) I) as Hshot.
    fold r w in Hshot. destruct r as [[] | [| what |]].
    + left. apply Hshot. reflexivity.
    + now elim Hsafe.
    + right. left. now exists what.
    + right. right. reflexivity.
Qed.

Lemma first_link_access_is_guarded_witness :
  let r := fst (@php_server_testing Site.state (Site.served 0) (@initial Site.state 0)) in
  let w := snd (@php_server_testing Site.state (Site.served 0) (@initial Site.state 0)) in
  r = Ok tt /\ links_found (trace w) = [[]] /\ clicks (trace w) = [] /\
  In "/tmp/php_app_test.png"%string (screenshots (trace w)).
Proof.
  cbv zeta.
  assert (Hr : fst (@php_server_testing Site.state (Site.served 0) (@initial Site.state 0)) = Ok tt)
    by (vm_compute; reflexivity).
  assert (Hl : links_found (trace (snd (@php_server_testing Site.state (Site.served 0)
                                          (@initial Site.state 0)))) = [[]])
    by (vm_compute; reflexivity).
  destruct (first_link_access_is_guarded Site.state (Site.served 0) 0)
    as (_ & _ & Hnone & Hshot).
  split; [exact Hr |]. split; [exact Hl |]. split; [exact (Hnone Hl) |].
  destruct Hshot as [H | [[what H] | H]]; [exact H | |];
    pose proof (eq_trans (eq_sym Hr) H) as Hno; discriminate Hno.
Defined.

(* ===================================================================== *)
(** ** The link report of [php_server_testing.py] *)
(* ===================================================================== *)

Definition href_of (d : detail) : Locator * option string := (d_link d, d_href d).
Definition text_of (d : detail) : Locator * string := (d_link d, d_text d).

Section Report.

Context {Browser : Type} {PW : Playwright Browser}.

  (** The books of a run: the lists located, the count lines and detail
      lines printed, and the attribute and text reads behind the details.
      With [hx] (resp. [tx]) the reads are exactly those of [ds], without
      it they start with them. *)
Definition ledger (ls : list (list Locator)) (fs : list string)
             (ds : list detail) (hx tx : bool) (w : World Browser) : Prop :=
    links_found (trace w) = ls /\
    filter is_found (stdout w) = fs /\
    filter is_detail (stdout w) = map detail_line ds /\
    (if hx then hrefs_read (trace w) = map href_of ds
     else exists rest, hrefs_read (trace w) = map href_of ds ++ rest) /\
    (if tx then texts_read (trace w) = map text_of ds
     else exists rest, texts_read (trace w) = map text_of ds ++ rest).

Lemma ledger_call ls fs ds (hx tx : bool) (T : Type) (a : api T) :
    (forall r, found (Called a r) = []) ->
    (hx = true -> forall r, href_read (Called a r) = []) ->
    (tx = true -> forall r, text_read (Called a r) = []) ->
    forall (w : World Browser) r b',
      ledger ls fs ds hx tx w -> ledger ls fs ds hx tx (after_call w a r b').
Proof.
    intros Hf Hh Ht w r b' (Hls & Hfs & Hds & Hhr & Htx).
    unfold ledger, after_call; simpl.
    rewrite links_found_snoc, hrefs_read_snoc, texts_read_snoc, Hf, app_nil_r.
    repeat split; trivial.
    - destruct hx.
      + rewrite Hh, app_nil_r; trivial.
      + destruct Hhr as [rest ->]. rewrite <- app_assoc. eexists; reflexivity.
    - destruct tx.
      + rewrite Ht, app_nil_r; trivial.
      + destruct Htx as [rest ->]. rewrite <- app_assoc. eexists; reflexivity.
Qed.

Lemma filter_snoc {A : Type} (f : A -> bool) (l : list A) (x : A) :
    filter f (l ++ [x]) = filter f l ++ (if f x then [x] else []).
Proof. rewrite filter_app. simpl. destruct (f x); reflexivity. Qed.

Lemma ledger_print ls fs ds (hx tx : bool) (s : string) :
    is_found s = false -> is_detail s = false ->
    forall w : World Browser,
      ledger ls fs ds hx tx w -> ledger ls fs ds hx tx (after_print w s).
Proof.
    intros Hf Hd w (Hls & Hfs & Hds & Hhr & Htx). unfold ledger, after_print; simpl.
    rewrite !filter_snoc, Hf, Hd, !app_nil_r. repeat split; trivial.
Qed.

Lemma ledger_relax ls fs ds (hx tx hx' tx' : bool) (w : World Browser) :
    (hx' = true -> hx = true) -> (tx' = true -> tx = true) ->
    ledger ls fs ds hx tx w -> ledger ls fs ds hx' tx' w.
Proof.
    intros Hh Ht (Hls & Hfs & Hds & Hhr & Htx). repeat split; trivial.
    - destruct hx'.
      + rewrite Hh in Hhr; trivial.
      + destruct hx; [exists []; now rewrite app_nil_r | exact Hhr].
    - destruct tx'.
      + rewrite Ht in Htx; trivial.
      + destruct tx; [exists []; now rewrite app_nil_r | exact Htx].
Qed.

Lemma isascii_found_line (n : nat) : Py.isascii (found_line n) = true.
Proof.
    unfold found_line. rewrite !isascii_app, isascii_str_of_nat. reflexivity.
Qed.

  (** A prefix of the first five links is a prefix of the links. *)
Lemma slice_prefix {A : Type} (n : nat) (l done rest : list A) :
    Py.slice_to n l = done ++ rest ->
    length done <= n /\ done = firstn (length done) l.
Proof.
    unfold Py.slice_to. intros H.
    assert (Hlen : length done <= n).
    { apply (f_equal (@length A)) in H. rewrite length_app in H.
      pose proof (firstn_le_length n l) as Hle. lia. }
    split; [exact Hlen |].
    apply (f_equal (firstn (length done))) in H.
    rewrite firstn_firstn, firstn_app, firstn_all, Nat.sub_diag in H.
    simpl in H. rewrite app_nil_r in H.
    rewrite Nat.min_l in H by exact Hlen. symmetry. exact H.
Qed.

End Report.

Section ReportRun.

Context {Browser : Type} {PW : Playwright Browser}.

Lemma hoare_for_each {A : Type} (l : list A)
        (I : list A -> World Browser -> Prop)
        (Q : result unit -> World Browser -> Prop)
        (body : A -> M Browser unit) :
    (forall done x rest, l = done ++ x :: rest ->
       hoare (I done) (body x)
             (fun r w => match r with
                         | Ok _ => I (done ++ [x]) w
                         | Raise e => Q (Raise e) w
                         end)) ->
    (forall w, I l w -> Q (Ok tt) w) ->
    hoare (I []) (for_each l body) Q.
Proof.
    intros Hbody Hend.
    assert (Hgen : forall rest done, l = done ++ rest ->
                                     hoare (I done) (for_each rest body) Q).
    { induction rest as [| x rest IH]; intros done Hl; simpl.
      - rewrite app_nil_r in Hl. subst done. apply hoare_ret. exact Hend.
      - apply hoare_bind with (R := fun _ => I (done ++ [x])).
        + apply (Hbody done x rest Hl).
        + intros _. apply IH. rewrite <- app_assoc. exact Hl. }
    apply (Hgen l []). reflexivity.
Qed.

  (** What the run owes for the links it found. *)
Definition reported (links : list Locator) (r : result unit)
             (w : World Browser) : Prop :=
    exists ds,
      ledger [links] [found_line (length links)] ds false false w /\
      length ds <= 5 /\
      map d_link ds = firstn (length ds) links /\
      (r = Ok tt ->
       map d_link ds = firstn 5 links /\ hrefs_read (trace w) = map href_of ds).

Lemma reported_partial links done rest ds e (w : World Browser) :
    Py.slice_to 5 links = done ++ rest ->
    map d_link ds = done ->
    ledger [links] [found_line (length links)] ds false false w ->
    reported links (Raise e) w.
Proof.
    intros Hslice Hmap HL. exists ds.
    destruct (slice_prefix 5 links done rest Hslice) as [Hlen Hpre].
    assert (Hlen' : length ds = length done).
    { rewrite <- Hmap. now rewrite length_map. }
    split; [exact HL |]. split; [lia |]. split.
    - rewrite Hlen', Hmap. exact Hpre.
    - discriminate.
Qed.

Lemma detail_step links done x rest :
    Py.slice_to 5 links = done ++ x :: rest ->
    hoare (fun w => exists ds, map d_link ds = done /\
                               ledger [links] [found_line (length links)] ds true true w)
          (bind (call (GetAttribute x "href")) (fun href =>
           bind (call (InnerText x)) (fun text =>
           @print Browser PW ("  - " ++ Py.strip text ++ " -> " ++ Py.str_of_optional href)%string)))
          (fun r w => match r with
                      | Ok _ => exists ds, map d_link ds = done ++ [x] /\
                                  ledger [links] [found_line (length links)] ds true true w
                      | Raise e => reported links (Raise e) w
                      end).
Proof.
    intros Hslice.
    set (n := length links).
    apply hoare_bind with
      (R := fun href w =>
              exists ds, map d_link ds = done /\
                links_found (trace w) = [links] /\
                filter is_found (stdout w) = [found_line n] /\
                filter is_detail (stdout w) = map detail_line ds /\
                hrefs_read (trace w) = map href_of ds ++ [(x, href)] /\
                texts_read (trace w) = map text_of ds).
    { apply hoare_call. intros w r b' [ds [Hmap HL]].
      pose proof (ledger_call [links] [found_line n] ds false false
                    _ (GetAttribute x "href") (fun _ => eq_refl)
                    ltac:(discriminate) ltac:(discriminate) w r b'
                    (ledger_relax _ _ _ true true false false w
                       ltac:(discriminate) ltac:(discriminate) HL)) as HL1.
      unfold result_of. destruct (outcome r) as [what | href] eqn:Hout.
      - eapply reported_partial; eauto.
      - exists ds. destruct HL as (Hls & Hfs & Hds & Hhr & Htx). simpl.
        rewrite links_found_snoc, hrefs_read_snoc, texts_read_snoc. simpl.
        rewrite Hout, Hls, Hhr, Htx, !app_nil_r. repeat split; trivial. }
    intros href.
    apply hoare_bind with
      (R := fun text w =>
              exists ds, map d_link ds = done /\
                links_found (trace w) = [links] /\
                filter is_found (stdout w) = [found_line n] /\
                filter is_detail (stdout w) = map detail_line ds /\
                hrefs_read (trace w) = map href_of ds ++ [(x, href)] /\
                texts_read (trace w) = map text_of ds ++ [(x, text)]).
    { apply hoare_call. intros w r b' (ds & Hmap & Hls & Hfs & Hds & Hhr & Htx).
      unfold result_of. destruct (outcome r) as [what | text] eqn:Hout.
      - eapply reported_partial; eauto. unfold ledger; simpl.
        rewrite links_found_snoc, hrefs_read_snoc, texts_read_snoc. simpl.
        rewrite Hout, Hls, Hhr, Htx, !app_nil_r. repeat split; trivial.
        + eexists; reflexivity.
        + exists []. now rewrite app_nil_r.
      - exists ds. simpl.
        rewrite links_found_snoc, hrefs_read_snoc, texts_read_snoc. simpl.
        rewrite Hout, Hls, Hhr, Htx, !app_nil_r. repeat split; trivial. }
    intros text. apply hoare_print.
    - intros w (ds & Hmap & Hls & Hfs & Hds & Hhr & Htx) _.
      exists (ds ++ [mkDetail x href text]). split.
      { rewrite map_app, Hmap. reflexivity. }
      assert (Hd : is_detail (detail_line (mkDetail x href text)) = true) by reflexivity.
      assert (Hf : is_found (detail_line (mkDetail x href text)) = false) by reflexivity.
      change (ledger [links] [found_line n] (ds ++ [mkDetail x href text]) true true
                     (after_print w (detail_line (mkDetail x href text)))).
      unfold ledger. cbn [after_print stdout trace].
      rewrite !filter_snoc, Hd, Hf, Hls, Hfs, Hds, Hhr, Htx, !map_app, !app_nil_r.
      repeat split; reflexivity.
    - intros w (ds & Hmap & Hls & Hfs & Hds & Hhr & Htx) _.
      eapply reported_partial; eauto. unfold ledger.
      repeat split; trivial; eexists; eassumption.
Qed.

End ReportRun.

Ltac ledger_side :=
  first
    [ apply ledger_print; reflexivity
    | apply ledger_call;
      [ intros ?; reflexivity
      | first [ intros ? ?; reflexivity | intros ?; discriminate ]
      | first [ intros ? ?; reflexivity | intros ?; discriminate ] ] ].

Section ReportProof.

Context {Browser : Type} {PW : Playwright Browser}.

Definition all_reported (r : result unit) (w : World Browser) : Prop :=
    forall links, In links (links_found (trace w)) -> reported links r w.

Lemma reported_all links r (w : World Browser) :
    reported links r w -> all_reported r w.
Proof.
    intros H links' Hin. destruct H as [ds [HL Hrest]].
    destruct HL as [Hls HL]. rewrite Hls in Hin. destruct Hin as [<- | []].
    exists ds. split; [split; assumption | exact Hrest].
Qed.

Lemma blank_all_reported ds hx tx r (w : World Browser) :
    ledger [] [] ds hx tx w -> all_reported r w.
Proof. intros [Hls _] links Hin. rewrite Hls in Hin. destruct Hin. Qed.

Lemma server_testing_report :
    hoare (ledger [] [] [] true true) (@php_server_testing Browser PW) all_reported.
Proof.
    unfold php_server_testing.
    do 6 (apply hoare_after;
          [ walk ledger_side
          | intros ? ?; apply blank_all_reported
          | intros ? ]).
    apply hoare_bind with (R := fun links => ledger [links] [] [] true true).
    { apply hoare_call. intros w r b' (Hls & Hfs & Hds & Hhr & Htx). unfold result_of.
      destruct (outcome r) as [what | links] eqn:Hout.
      - apply blank_all_reported with (ds := []) (hx := true) (tx := true).
        unfold ledger; simpl.
        rewrite links_found_snoc, hrefs_read_snoc, texts_read_snoc. simpl.
        rewrite Hout, Hls, Hhr, Htx. repeat split; trivial.
      - unfold ledger; simpl.
        rewrite links_found_snoc, hrefs_read_snoc, texts_read_snoc. simpl.
        rewrite Hout, Hls, Hhr, Htx. repeat split; trivial. }
    intros links. set (n := length links).
    apply hoare_bind with (R := fun _ => ledger [links] [found_line n] [] true true).
    { apply hoare_print_ascii; [apply isascii_found_line |].
      intros w (Hls & Hfs & Hds & Hhr & Htx).
      assert (Hf : is_found (found_line n) = true) by reflexivity.
      assert (Hd : is_detail (found_line n) = false) by reflexivity.
      change (ledger [links] [found_line n] [] true true (after_print w (found_line n))).
      unfold ledger. cbn [after_print stdout trace].
      rewrite !filter_snoc, Hf, Hd, Hfs, Hds, app_nil_r. repeat split; trivial. }
    intros _.
    apply hoare_bind with
      (R := fun _ w => exists ds, map d_link ds = Py.slice_to 5 links /\
                                  ledger [links] [found_line n] ds true true w).
    { apply hoare_weaken with
        (P' := (fun done w => exists ds, map d_link ds = done /\
                                ledger [links] [found_line n] ds true true w) [])
        (Q' := fun r w =>
                 match r with
                 | Ok _ => exists ds, map d_link ds = Py.slice_to 5 links /\
                             ledger [links] [found_line n] ds true true w
                 | Raise e => all_reported (Raise e) w
                 end).
      - apply hoare_for_each with
          (I := fun done w => exists ds, map d_link ds = done /\
                                ledger [links] [found_line n] ds true true w).
        + intros done x rest Hl.
          eapply hoare_weaken; [apply (detail_step links done x rest); now symmetry | trivial |].
          intros [[] | e] w H; [exact H | eapply reported_all; exact H].
        + trivial.
      - intros w HL. exists []. split; [reflexivity | exact HL].
      - trivial. }
    intros _ w [ds [Hmap HL]].
    assert (Hinv : always (ledger [links] [found_line n] ds true false)
                     (bind (if Py.truthy links
                            then bind (index links 0) (fun first_link =>
                                 bind (call (InnerText first_link)) (fun t =>
                                 bind (print (Py.nl ++ "Clicking first link: " ++ t)%string) (fun _ =>
                                 bind (call (ClickLocator first_link)) (fun _ =>
                                 bind (call (WaitForLoadState "networkidle")) (fun _ =>
                                 bind page_url (fun u =>
                                 print ("Navigated to: " ++ u)%string))))))
                            else ret tt) (fun _ =>
                      bind (call (Screenshot "/tmp/php_app_test.png" true)) (fun _ =>
                      bind (print (Py.nl ++ "Screenshot saved to /tmp/php_app_test.png")%string) (fun _ =>
                      bind (call Close) (fun _ =>
                      @print Browser PW "PHP server testing completed!")))))).
    { walk ledger_side. }
    specialize (Hinv w (ledger_relax _ _ _ true true true false w
                          ltac:(trivial) ltac:(discriminate) HL)).
    eapply reported_all. exists ds.
    destruct (slice_prefix 5 links (map d_link ds) [] ltac:(now rewrite app_nil_r))
      as [Hlen Hpre].
    rewrite length_map in Hlen, Hpre.
    split; [| split; [exact Hlen | split; [exact Hpre |]]].
    - eapply ledger_relax; [| | exact Hinv]; discriminate.
    - intros _. split; [exact Hmap |]. destruct Hinv as (_ & _ & _ & Hhr & _). exact Hhr.
Qed.

End ReportProof.

(** C9. Whenever the links are found, the line printed carries their total
    number, and the detail lines are those of the first links in the
    locator's order, each made of the text and the href read for that link:
    at most five of them, and exactly the first five (or all, when there
    are fewer) when the script runs to its end. *)
Theorem link_report_counts_all_details_first_five
        (Browser : Type) (PW : Playwright Browser) (b : Browser)
        (links : list Locator) :
  let r := fst (php_server_testing (initial b)) in
  let w := snd (php_server_testing (initial b)) in
  In links (links_found (trace w)) ->
  filter is_found (stdout w) = [found_line (length links)] /\
  exists ds : list detail,
    filter is_detail (stdout w) = map detail_line ds /\
    length ds <= 5 /\
    map d_link ds = firstn (length ds) links /\
    (exists more, hrefs_read (trace w) = map href_of ds ++ more) /\
    (exists more, texts_read (trace w) = map text_of ds ++ more) /\
    (r = Ok tt -> map d_link ds = firstn 5 links).
Proof.
  intros r w Hin.
  assert (Hinit : ledger [] [] [] true true (initial b)).
  { repeat split. }
  destruct (server_testing_report (initial b) Hinit links Hin)
    as (ds & (Hls & Hfs & Hds & Hhr & Htx) & Hlen & Hpre & Hok).
  split; [exact Hfs |]. exists ds. repeat split; trivial.
  intros H. apply Hok, H.
Qed.

Lemma link_report_counts_all_details_first_five_witness :
  let w := snd (@php_server_testing Site.state (Site.served 7) (initial 0)) in
  In (Site.anchors 7) (links_found (trace w)) /\
  filter is_found (stdout w) = [found_line 7].
Proof.
  assert (Hin : In (Site.anchors 7)
                   (links_found (trace (snd (@php_server_testing Site.state
                                               (Site.served 7) (initial 0)))))).
  { vm_compute. left. reflexivity. }
  split; [exact Hin |].
  exact (proj1 (link_report_counts_all_details_first_five
                  Site.state (Site.served 7) 0 (Site.anchors 7) Hin)).
Defined.

(** On a page whose link texts start with a no-break space the detail
    lines carry the stripped texts. *)
Lemma detail_lines_on_site :
  filter is_detail
         (stdout (snd (@php_server_testing Site.state (Site.served 2)
                         (@initial Site.state 0)))) =
  ["  - item 7 -> /p6"; "  - item 9 -> /p8"]%string.
Proof. vm_compute. reflexivity. Qed.

(** Seen from a terminal that takes ASCII only, the same run ends at the
    line that announces the click, whose text is not stripped: nothing is
    clicked and no screenshot is taken. *)
Lemma ascii_terminal_stops_run :
  let run := @php_server_testing Site.state (Site.served_ascii 2)
                                 (@initial Site.state 0) in
  fst run = Raise UnicodeEncodeError /\
  clicks (trace (snd run)) = [] /\
  screenshots (trace (snd run)) = [] /\
  length (filter is_detail (stdout (snd run))) = 2.
Proof. vm_compute. repeat split. Qed.

(* ===================================================================== *)
(** ** The console capture, proved *)
(* ===================================================================== *)

Section Handler.

Lemma heap_append_length r x h : length (heap_append r x h) = length h.
Proof.
  revert r. induction h as [| cell rest IH]; intros r; destruct r; simpl;
    try reflexivity. now rewrite IH.
Qed.

Lemma heap_read_append_same r x h :
  r < length h -> heap_read r (heap_append r x h) = heap_read r h ++ [x].
Proof.
  unfold heap_read. revert r.
  induction h as [| cell rest IH]; intros r Hr; destruct r; simpl in *;
    try lia; try reflexivity.
  apply IH. lia.
Qed.

Lemma heap_read_append_other r r' x h :
  r' <> r -> heap_read r' (heap_append r x h) = heap_read r' h.
Proof.
  unfold heap_read. revert r r'.
  induction h as [| cell rest IH]; intros r r' Hne; destruct r, r'; simpl;
    try reflexivity; try congruence.
  apply IH. congruence.
Qed.

Lemma dispatch_nil ms h : dispatch [] ms h = h.
Proof. unfold dispatch. induction ms; simpl; trivial. Qed.

Lemma dispatch_handle_console ms logs :
  dispatch [handle_console 0] ms [logs] = [logs ++ map format_console ms].
Proof.
  unfold dispatch. revert logs. induction ms as [| m ms IH]; intros logs.
  - simpl. now rewrite app_nil_r.
  - cbn [fold_left map].
    change (handle_console 0 m [logs]) with [logs ++ [format_console m]].
    rewrite IH, <- app_assoc. reflexivity.
Qed.

Lemma heard_none tr : registrations tr = [] -> heard tr = [] /\ since_listen tr = [].
Proof.
  induction tr as [| [T a r | ev] tr IH]; simpl; intros H.
  - split; reflexivity.
  - apply IH, H.
  - discriminate.
Qed.

Lemma heard_after before ev after :
  registrations before = [] ->
  heard (before ++ Listen ev :: after) = flat_map delivered_by after /\
  since_listen (before ++ Listen ev :: after) = after.
Proof.
  induction before as [| [T a r | ev'] tr IH]; simpl; intros H.
  - split; reflexivity.
  - apply IH, H.
  - discriminate.
Qed.

End Handler.

Section Capture.

Context {Browser : Type} {PW : Playwright Browser}.

Lemma bind_assoc {A B C : Type} (m : M Browser A) (k : A -> M Browser B)
      (h : B -> M Browser C) (w : World Browser) :
  bind (bind m k) h w = bind m (fun a => bind (k a) h) w.
Proof. unfold bind. destruct (m w) as [[a | e] w']; reflexivity. Qed.

Lemma bind_ext {A B : Type} (m : M Browser A) (k k' : A -> M Browser B)
      (w : World Browser) :
  (forall a w', k a w' = k' a w') -> bind m k w = bind m k' w.
Proof. intros H. unfold bind. destruct (m w) as [[a | e] w']; [apply H | reflexivity]. Qed.

Lemma testing_example_split (w : World Browser) :
  php_testing_example w = bind examples_1_to_3 (fun _ => examples_4_to_end) w.
Proof.
  unfold php_testing_example, examples_1_to_3, examples_4_to_end.
  rewrite bind_assoc. apply bind_ext; intros _ w1.
  rewrite bind_assoc. apply bind_ext; intros _ w2.
  rewrite bind_assoc. reflexivity.
Qed.

Lemma hoare_seq {A B : Type} (P P' P'' F : World Browser -> Prop)
      (m : M Browser A) (k : A -> M Browser B) :
  hoare P m (staged P' F) ->
  (forall a, hoare P' (k a) (staged P'' F)) ->
  hoare P (bind m k) (staged P'' F).
Proof.
  intros Hm Hk. apply hoare_bind with (R := fun _ => P'); [exact Hm | exact Hk].
Qed.

(** *** Before the handler is attached *)

Lemma unheard_call h (T : Type) (a : api T) (w : World Browser) r b' :
  unheard h w -> unheard h (after_call w a r b').
Proof.
  intros [HL HH]. unfold unheard, after_call; simpl.
  rewrite HL, dispatch_nil. split; trivial.
Qed.

Lemma unheard_print h s (w : World Browser) :
  unheard h w -> unheard h (after_print w s).
Proof. intros H; exact H. Qed.

Lemma examples_1_to_3_unheard h : always (unheard h) examples_1_to_3.
Proof.
  unfold examples_1_to_3, setup, example_1, example_2, example_3.
  walk ltac:(first [ apply unheard_call | apply unheard_print ]).
Qed.

Lemma quiet_call navs navs' (T : Type) (a : api T) :
  (forall r, navs ++ navigation (Called a r) = navs') ->
  forall (w : World Browser) r b', quiet navs w -> quiet navs' (after_call w a r b').
Proof.
  intros Hn w r b' (HL & HH & HR & HN & HC & HG). unfold quiet, after_call; simpl.
  rewrite registrations_snoc, navigations_snoc, HL, HH, HR, HN, Hn, dispatch_nil.
  repeat split; trivial.
Qed.

Lemma quiet_print navs s :
  is_captured s = false -> is_log s = false ->
  forall w : World Browser, quiet navs w -> quiet navs (after_print w s).
Proof.
  intros Hc Hl w (HL & HH & HR & HN & HC & HG). unfold quiet, after_print; simpl.
  rewrite !filter_snoc, Hc, Hl, HC, HG. repeat split; trivial.
Qed.

Lemma quiet_calls navs navs' (T : Type) (a : api T) :
  (forall r, navs ++ navigation (Called a r) = navs') ->
  hoare (quiet navs) (call a)
        (staged (quiet navs') (fun w : World Browser => exists n, quiet n w)).
Proof.
  intros Hn. apply hoare_call. intros w r b' Hq.
  pose proof (quiet_call navs navs' T a Hn w r b' Hq) as Hq'.
  unfold result_of, staged. destruct (outcome r); [eexists; exact Hq' | exact Hq'].
Qed.

Lemma quiet_prints navs s :
  is_captured s = false -> is_log s = false ->
  hoare (quiet navs) (print s)
        (staged (quiet navs) (fun w : World Browser => exists n, quiet n w)).
Proof.
  intros Hc Hl. apply hoare_print.
  - intros w Hq _. apply quiet_print; assumption.
  - intros w Hq _. eexists. exact Hq.
Qed.

Lemma examples_1_to_3_quiet :
  hoare (quiet []) examples_1_to_3
        (staged (quiet [login; users; register])
                (fun w : World Browser => exists n, quiet n w)).
Proof.
  unfold examples_1_to_3, setup, example_1, example_2, example_3.
  repeat first
    [ eapply quiet_calls; intros ?; cbn; reflexivity
    | eapply quiet_prints; reflexivity
    | eapply hoare_seq; [| intros ? ] ].
Qed.

(** *** Once the handler is attached *)

Lemma told_call before after cs ls (T : Type) (a : api T) (w : World Browser) r b' :
  told before after cs ls w ->
  told before (after ++ [Called a r]) cs ls (after_call w a r b').
Proof.
  intros (HL & Ht & Hr & Hh & Hc & Hl). unfold told, after_call; simpl.
  rewrite HL, Ht, Hh, dispatch_handle_console, registrations_snoc, Hr,
    flat_map_app, map_app, <- app_assoc.
  simpl. rewrite app_nil_r. repeat split; trivial.
Qed.

Lemma told_print before after cs ls s (w : World Browser) :
  told before after cs ls w ->
  told before after (cs ++ (if is_captured s then [s] else []))
       (ls ++ (if is_log s then [s] else [])) (after_print w s).
Proof.
  intros (HL & Ht & Hr & Hh & Hc & Hl). unfold told, after_print; simpl.
  rewrite !filter_snoc, Hc, Hl. repeat split; trivial.
Qed.

Lemma reading_call before (T : Type) (a : api T) (w : World Browser) r b' :
  reading before w -> reading before (after_call w a r b').
Proof.
  intros (e1 & e2 & more & Hn & H1 & H2 & Ht).
  exists e1, e2, (more ++ [Called a r]).
  apply (told_call _ _ _ _ T a w r b') in Ht.
  split; [exact Hn | split; [exact H1 | split; [exact H2 | exact Ht]]].
Qed.

Lemma reading_print before s :
  is_captured s = false -> is_log s = false ->
  forall w : World Browser, reading before w -> reading before (after_print w s).
Proof.
  intros Hc Hl w (e1 & e2 & more & Hn & H1 & H2 & Ht).
  exists e1, e2, more.
  apply (told_print _ _ _ _ s) in Ht. rewrite Hc, Hl, !app_nil_r in Ht.
  split; [exact Hn | split; [exact H1 | split; [exact H2 | exact Ht]]].
Qed.

Lemma reading_captured before r (w : World Browser) :
  reading before w -> captured before r w.
Proof.
  intros (e1 & e2 & more & Hn & H1 & H2 & Ht).
  eexists (e1 :: e2 :: more), _, _. split; [exact Ht |]. split.
  - exists e1, (e2 :: more). split; [reflexivity | exact Hn].
  - intros e1' e2' rest Heq _ _. injection Heq as <- <- _. split; [reflexivity |].
    exists (first_logs e1 e2), []. rewrite app_nil_r.
    split; [reflexivity |]. split; [reflexivity | now left].
Qed.

Lemma isascii_captured_line (n : nat) : Py.isascii (captured_line n) = true.
Proof.
  unfold captured_line. rewrite !isascii_app, isascii_str_of_nat. reflexivity.
Qed.

Lemma hoare_attach {B : Type} before navs (k : ref -> M Browser B)
      (Q : result B -> World Browser -> Prop) :
  hoare (told before [] [] []) (k 0) Q ->
  hoare (fun w => quiet navs w /\ trace w = before)
        (bind new_list (fun console_logs =>
         bind (page_on "console" (handle_console console_logs)) (fun _ =>
         k console_logs)))
        Q.
Proof.
  intros Hk w [(HL & HH & HR & HN & HC & HG) Ht].
  unfold bind, new_list, page_on. simpl. rewrite HL, HH, Ht. simpl.
  apply Hk. unfold told; simpl. repeat split; trivial.
Qed.

Lemma example_4_captures before navs :
  hoare (fun w => quiet navs w /\ trace w = before) example_4
        (guarded (reading before) (fun e => captured before (Raise e))).
Proof.
  unfold example_4. apply hoare_attach.
  apply hoare_bind with
    (R := fun _ w => exists e1, navigation e1 = [dashboard] /\ succeeded e1 = true /\
                                told before [e1] [] [] w).
  { apply hoare_call. intros w r b' Ht.
    apply (told_call _ _ _ _ _ (Goto "http://localhost:8000/dashboard.php") w r b') in Ht.
    simpl app in Ht. unfold result_of. destruct (outcome r) as [what | v] eqn:Hout.
    - exists [Called (Goto "http://localhost:8000/dashboard.php") r], [], [].
      split; [exact Ht |]. split.
      + eexists _, _. split; reflexivity.
      + intros e1 e2 rest Heq. discriminate.
    - eexists. split; [| split; [| exact Ht]]; [reflexivity |].
      simpl. now rewrite Hout. }
  intros _.
  apply hoare_bind with
    (R := fun _ w => exists e1 e2, navigation e1 = [dashboard] /\ succeeded e1 = true /\
                                   succeeded e2 = true /\ told before [e1; e2] [] [] w).
  { apply hoare_call. intros w r b' (e1 & Hn & H1 & Ht).
    apply (told_call _ _ _ _ _ (WaitForLoadState "networkidle") w r b') in Ht.
    simpl app in Ht. unfold result_of. destruct (outcome r) as [what | v] eqn:Hout.
    - exists [e1; Called (WaitForLoadState "networkidle") r], [], [].
      split; [exact Ht |]. split.
      + exists e1, [Called (WaitForLoadState "networkidle") r]. split; [reflexivity | exact Hn].
      + intros e1' e2' rest Heq _ H2. injection Heq as _ <- _.
        simpl in H2. rewrite Hout in H2. discriminate.
    - exists e1, (Called (WaitForLoadState "networkidle") r).
      split; [exact Hn | split; [exact H1 | split; [| exact Ht]]].
      simpl. now rewrite Hout. }
  intros _.
  apply hoare_bind with
    (R := fun logs w => exists e1 e2, navigation e1 = [dashboard] /\ succeeded e1 = true /\
                                      succeeded e2 = true /\ told before [e1; e2] [] [] w /\
                                      logs = first_logs e1 e2).
  { intros w (e1 & e2 & Hn & H1 & H2 & Ht). simpl.
    exists e1, e2.
    split; [exact Hn | split; [exact H1 | split; [exact H2 | split; [exact Ht |]]]].
    destruct Ht as (_ & _ & _ & Hh & _). rewrite Hh. unfold heap_read, first_logs. simpl.
    now rewrite app_nil_r. }
  intros logs.
  apply hoare_bind with
    (R := fun _ w => exists e1 e2, navigation e1 = [dashboard] /\ succeeded e1 = true /\
                                   succeeded e2 = true /\
                                   told before [e1; e2] [captured_line (length logs)] [] w /\
                                   logs = first_logs e1 e2).
  { apply hoare_print_ascii; [apply isascii_captured_line |].
    intros w (e1 & e2 & Hn & H1 & H2 & Ht & Hlogs).
    exists e1, e2.
    apply (told_print _ _ _ _ (captured_line (length logs))) in Ht.
    assert (Hc : is_captured (captured_line (length logs)) = true) by reflexivity.
    assert (Hl : is_log (captured_line (length logs)) = false) by reflexivity.
    rewrite Hc, Hl in Ht.
    split; [exact Hn | split; [exact H1 | split; [exact H2 | split; [exact Ht | exact Hlogs]]]]. }
  intros _.
  apply hoare_weaken with
    (P' := (fun done w => exists e1 e2, navigation e1 = [dashboard] /\ succeeded e1 = true /\
                            succeeded e2 = true /\
                            told before [e1; e2] [captured_line (length logs)]
                                 (map log_line done) w /\
                            logs = first_logs e1 e2) [])
    (Q' := guarded (reading before) (fun e => captured before (Raise e)));
    [| trivial | trivial].
  apply hoare_for_each with
    (I := fun done w => exists e1 e2, navigation e1 = [dashboard] /\ succeeded e1 = true /\
                          succeeded e2 = true /\
                          told before [e1; e2] [captured_line (length logs)]
                               (map log_line done) w /\
                          logs = first_logs e1 e2).
  - intros done x rest Hl. apply hoare_print.
    + intros w (e1 & e2 & Hn & H1 & H2 & Ht & Hlogs) _.
      exists e1, e2.
      apply (told_print _ _ _ _ (log_line x)) in Ht.
      assert (Hc : is_captured (log_line x) = false) by reflexivity.
      assert (Hg : is_log (log_line x) = true) by reflexivity.
      rewrite Hc, Hg, app_nil_r in Ht. rewrite map_app.
      split; [exact Hn | split; [exact H1 | split; [exact H2 | split; [exact Ht | exact Hlogs]]]].
    + intros w (e1 & e2 & Hn & H1 & H2 & Ht & Hlogs) Hbad.
      eexists [e1; e2], _, _. split; [exact Ht |]. split.
      * exists e1, [e2]. split; [reflexivity | exact Hn].
      * intros e1' e2' rest' Heq _ _. injection Heq as <- <- <-.
        split; [now rewrite Hlogs |].
        exists done, (x :: rest). rewrite <- Hlogs.
        split; [exact Hl |]. split; [reflexivity |]. right.
        exists x, rest. repeat split; trivial.
  - intros w (e1 & e2 & Hn & H1 & H2 & Ht & Hlogs). subst logs.
    exists e1, e2, [].
    split; [exact Hn | split; [exact H1 | split; [exact H2 | exact Ht]]].
Qed.

Lemma examples_4_to_end_captured before navs :
  hoare (fun w => quiet navs w /\ trace w = before) examples_4_to_end
        (fun r w => captured before r w).
Proof.
  unfold examples_4_to_end.
  apply hoare_bind with (R := fun _ => reading before).
  - apply (example_4_captures before navs).
  - intros _. apply hoare_of_always; [| intros r w; apply reading_captured].
    unfold example_5.
    walk ltac:(first [ apply reading_call | apply reading_print; reflexivity ]).
Qed.

(** The whole run, cut where Example 4 begins. *)
Lemma testing_example_run (b : Browser) :
  let r3 := fst (examples_1_to_3 (initial b)) in
  let w3 := snd (examples_1_to_3 (initial b)) in
  let r := fst (php_testing_example (initial b)) in
  let w := snd (php_testing_example (initial b)) in
  (exists navs, quiet navs w3) /\
  (forall e, r3 = Raise e -> w = w3) /\
  (r3 = Ok tt -> quiet [login; users; register] w3 /\ captured (trace w3) r w).
Proof.
  intros r3 w3 r w.
  assert (Hinit : quiet [] (initial b)) by (repeat split).
  pose proof (examples_1_to_3_quiet (initial b) Hinit) as H3.
  fold r3 w3 in H3.
  assert (Hrun : php_testing_example (initial b) =
                 bind examples_1_to_3 (fun _ => examples_4_to_end) (initial b))
    by apply testing_example_split.
  unfold r, w. rewrite Hrun. clear Hrun r w.
  unfold bind. fold r3 w3.
  destruct (examples_1_to_3 (initial b)) as [r3' w3'] eqn:Hrun.
  simpl in r3, w3. subst r3 w3.
  destruct r3' as [[] | e]; simpl in H3 |- *.
  - split; [eexists; exact H3 |]. split; [discriminate |]. intros _.
    split; [exact H3 |].
    apply (examples_4_to_end_captured (trace w3') [login; users; register] w3').
    split; [exact H3 | reflexivity].
  - split; [exact H3 |]. split; [intros _ _; reflexivity | discriminate].
Qed.

End Capture.

(** X2. Examples 1 to 3 run with no handler attached, so they change no
    list, whatever the browser delivers.  The one [page.on("console", ...)]
    of a run comes right after the last call of Example 3 and right before
    the goto of [dashboard.php], and at the end [console_logs] holds the
    messages delivered by that goto and the calls after it, and nothing
    from the calls before. *)
Theorem handler_attached_just_before_dashboard
        (Browser : Type) (PW : Playwright Browser) (b : Browser) :
  let r3 := fst (examples_1_to_3 (initial b)) in
  let w3 := snd (examples_1_to_3 (initial b)) in
  let w := snd (php_testing_example (initial b)) in
  (forall w0 : World Browser,
     listeners w0 = [] ->
     listeners (snd (examples_1_to_3 w0)) = [] /\
     heap (snd (examples_1_to_3 w0)) = heap w0) /\
  (heap w3 = [] /\ registrations (trace w3) = []) /\
  (forall e, r3 = Raise e -> w = w3) /\
  (r3 = Ok tt ->
   navigations (trace w3) = [login; users; register] /\
   exists e after,
     trace w = trace w3 ++ Listen "console" :: e :: after /\
     navigation e = [dashboard] /\
     registrations after = [] /\
     heap w = [map format_console (flat_map delivered_by (e :: after))]).
Proof.
  intros r3 w3 w.
  destruct (testing_example_run b) as ([navs Hq] & Hraise & Hok).
  fold r3 w3 w in Hq, Hraise, Hok.
  split; [| split; [| split]].
  - intros w0 HL. apply (examples_1_to_3_unheard (heap w0) w0). split; trivial.
  - destruct Hq as (_ & HH & HR & _). split; assumption.
  - exact Hraise.
  - intros H. destruct (Hok H) as [Hq3 (after & cs & ls & Ht & (e & rest & -> & Hn) & _)].
    split; [apply Hq3 |]. exists e, rest.
    destruct Ht as (_ & Htr & Hr & Hh & _). repeat split; trivial.
    unfold registrations in Hr |- *. simpl in Hr. apply app_eq_nil in Hr. apply Hr.
Qed.

Lemma handler_attached_just_before_dashboard_witness :
  let r3 := fst (@examples_1_to_3 Site.state (Site.served 0) (initial 0)) in
  let w3 := snd (@examples_1_to_3 Site.state (Site.served 0) (initial 0)) in
  let w := snd (@php_testing_example Site.state (Site.served 0) (initial 0)) in
  r3 = Ok tt /\
  navigations (trace w3) = [login; users; register] /\
  heap w = [["[log] tick 25"; "[log] tick 26"; "[log] tick 27"; "[log] tick 28"]%string].
Proof.
  assert (H3 : fst (@examples_1_to_3 Site.state (Site.served 0) (initial 0)) = Ok tt).
  { vm_compute. reflexivity. }
  destruct (proj2 (proj2 (proj2 (handler_attached_just_before_dashboard
                                   Site.state (Site.served 0) 0))) H3)
    as [Hn _].
  split; [exact H3 |]. split; [exact Hn |]. vm_compute. reflexivity.
Defined.

(** X1. [handle_console] appends exactly one formatted entry to
    [console_logs] and touches no other list; the messages of a call are
    handled in arrival order, so the list grows at its end only.  In a run
    of the script the list always holds, in order, one entry per message
    delivered since the handler was attached.  When the goto and the wait
    of Example 4 both return, the script prints the number of the messages
    they delivered and then one line per message, in that order, up to the
    last of them or up to the first line the stream cannot encode, at which
    the run ends in [UnicodeEncodeError]; and what it read stays the
    beginning of the list. *)
Theorem console_capture_is_append_only
        (Browser : Type) (PW : Playwright Browser) (b : Browser) :
  let r := fst (php_testing_example (initial b)) in
  let w := snd (php_testing_example (initial b)) in
  (forall console_logs msg h,
     console_logs < length h ->
     heap_read console_logs (handle_console console_logs msg h) =
       heap_read console_logs h ++ [format_console msg] /\
     forall other, other <> console_logs ->
       heap_read other (handle_console console_logs msg h) = heap_read other h) /\
  (forall ms logs,
     dispatch [handle_console 0] ms [logs] = [logs ++ map format_console ms]) /\
  heap_read 0 (heap w) = map format_console (heard (trace w)) /\
  (forall e1 e2 rest,
     since_listen (trace w) = e1 :: e2 :: rest ->
     succeeded e1 = true -> succeeded e2 = true ->
     filter is_captured (stdout w) = [captured_line (length (first_logs e1 e2))] /\
     (exists done left,
        first_logs e1 e2 = done ++ left /\
        filter is_log (stdout w) = map log_line done /\
        (left = [] \/
         exists log more,
           left = log :: more /\ printable (log_line log) = false /\
           rest = [] /\ r = Raise UnicodeEncodeError)) /\
     heap_read 0 (heap w) =
       first_logs e1 e2 ++ map format_console (flat_map delivered_by rest)).
Proof.
  intros r w.
  split; [| split].
  { intros console_logs msg h Hlt. unfold handle_console. split.
    - apply heap_read_append_same, Hlt.
    - intros other Hne. apply heap_read_append_other, Hne. }
  { apply dispatch_handle_console. }
  destruct (testing_example_run b) as ([navs Hq] & Hraise & Hok).
  fold r w in Hraise, Hok.
  destruct (fst (examples_1_to_3 (initial b))) as [[] | e] eqn:H3.
  - destruct (Hok eq_refl) as [Hq3 (after & cs & ls & Ht & _ & Hprinted)].
    destruct Ht as (_ & Htr & Hr & Hh & Hc & Hl).
    destruct Hq3 as (_ & _ & HR3 & _).
    destruct (heard_after _ "console" after HR3) as [Hheard Hsince].
    rewrite Htr, Hheard, Hsince, Hh. split; [reflexivity |].
    intros e1 e2 rest -> H1 H2.
    destruct (Hprinted e1 e2 rest eq_refl H1 H2)
      as [-> (done & left & Hsplit & -> & Hleft)].
    split; [exact Hc |]. split.
    + exists done, left. split; [exact Hsplit |]. split; [exact Hl | exact Hleft].
    + unfold heap_read, first_logs. simpl. now rewrite app_assoc, map_app.
  - rewrite (Hraise e eq_refl).
    destruct Hq as (_ & HH & HR & _).
    destruct (heard_none _ HR) as [-> ->]. rewrite HH. split; [reflexivity |].
    intros e1 e2 rest Heq. discriminate.
Qed.

Lemma console_capture_is_append_only_witness :
  let w := snd (@php_testing_example Site.state (Site.served 0) (@initial Site.state 0)) in
  filter is_captured (stdout w) = [captured_line 2] /\
  filter is_log (stdout w) = ["  [log] tick 25"; "  [log] tick 26"]%string.
Proof.
  pose (tr := since_listen (trace (snd (@php_testing_example Site.state
                                          (Site.served 0) (@initial Site.state 0))))).
  pose (e1 := nth 0 tr (Listen "")).
  pose (e2 := nth 1 tr (Listen "")).
  assert (Hs : tr = e1 :: e2 :: skipn 2 tr) by (vm_compute; reflexivity).
  assert (H1 : succeeded e1 = true) by (vm_compute; reflexivity).
  assert (H2 : succeeded e2 = true) by (vm_compute; reflexivity).
  destruct (proj2 (proj2 (proj2 (console_capture_is_append_only
                                   Site.state (Site.served 0) 0)))
              e1 e2 (skipn 2 tr) Hs H1 H2) as (Hc & _ & _).
  cbv zeta. split.
  - etransitivity; [exact Hc | vm_compute; reflexivity].
  - vm_compute. reflexivity.
Defined.

(* ===================================================================== *)
(** ** The course of a run, proved *)
(* ===================================================================== *)

Section Course.

Context {Browser : Type} {PW : Playwright Browser}.

Lemma itinerary_snoc tr e : itinerary (tr ++ [e]) = itinerary tr ++ journey e.
Proof. unfold itinerary. rewrite flat_map_app. simpl. now rewrite app_nil_r. Qed.

Lemma visibles_snoc tr e : visibles (tr ++ [e]) = visibles tr ++ visible_read e.
Proof. unfold visibles. rewrite flat_map_app. simpl. now rewrite app_nil_r. Qed.

Lemma forallb_snoc {A : Type} (f : A -> bool) (l : list A) (x : A) :
  forallb f (l ++ [x]) = forallb f l && f x.
Proof. rewrite forallb_app. simpl. now rewrite andb_true_r. Qed.

Lemma hoare_step {A B : Type} (P P' P'' : World Browser -> Prop)
      (F : exn -> World Browser -> Prop)
      (m : M Browser A) (k : A -> M Browser B) :
  hoare P m (guarded P' F) ->
  (forall a, hoare P' (k a) (guarded P'' F)) ->
  hoare P (bind m k) (guarded P'' F).
Proof.
  intros Hm Hk. apply hoare_bind with (R := fun _ => P'); [exact Hm | exact Hk].
Qed.

Lemma hoare_bind_ret {A B : Type} (P : World Browser -> Prop) (a : A)
      (k : A -> M Browser B) (Q : result B -> World Browser -> Prop) :
  hoare P (k a) Q -> hoare P (bind (ret a) k) Q.
Proof. intros H w HP. exact (H w HP). Qed.

Lemma hoare_if {A : Type} (P : World Browser -> Prop) (c : bool)
      (m1 m2 : M Browser A) (Q : result A -> World Browser -> Prop) :
  hoare P m1 Q -> hoare P m2 Q -> hoare P (if c then m1 else m2) Q.
Proof. destruct c; trivial. Qed.

Lemma call_stopped ls steps (T : Type) (a : api T) (w : World Browser) r b' what :
  underway ls steps w -> outcome r = inl what ->
  stopped (PlaywrightError what) (after_call w a r b').
Proof.
  intros (Hs & Hl & Hi & Hc & Hd) Hout. split; [exact Hd |]. left.
  exists what, (trace w), (Called a r).
  simpl. rewrite Hout, Hi. repeat split; trivial.
Qed.

Lemma call_underway ls ls' steps steps' (T : Type) (a : api T)
      (w : World Browser) r b' v :
  underway ls steps w -> outcome r = inr v ->
  ls ++ found (Called a r) = ls' ->
  steps ++ journey (Called a r) = steps' ->
  existsb is_closed steps' = false ->
  underway ls' steps' (after_call w a r b').
Proof.
  intros (Hs & Hl & Hi & Hc & Hd) Hout Hls Hst Hcl. unfold underway, after_call; simpl.
  rewrite forallb_snoc, links_found_snoc, itinerary_snoc, Hs, Hl, Hi, Hls, Hst.
  simpl. rewrite Hout. repeat split; trivial.
Qed.

Lemma underway_call ls steps steps' (T : Type) (a : api T) :
  (forall r, found (Called a r) = []) ->
  (forall r, steps ++ journey (Called a r) = steps') ->
  existsb is_closed steps' = false ->
  hoare (underway ls steps) (call a) (guarded (underway ls steps') stopped).
Proof.
  intros Hf Hj Hc. apply hoare_call. intros w r b' Hu. unfold result_of.
  destruct (outcome r) as [what | v] eqn:Hout; simpl.
  - eapply call_stopped; eassumption.
  - eapply call_underway; try eassumption.
    + rewrite Hf. apply app_nil_r.
    + apply Hj.
Qed.

Lemma underway_all steps (l : Locator) :
  hoare (underway [] steps) (call (All l))
        (fun r w => match r with
                    | Ok links => underway [links] steps w
                    | Raise e => stopped e w
                    end).
Proof.
  apply hoare_call. intros w r b' Hu. unfold result_of.
  destruct (outcome r) as [what | v] eqn:Hout; simpl.
  - eapply call_stopped; eassumption.
  - eapply call_underway; try eassumption.
    + simpl. now rewrite Hout.
    + simpl. apply app_nil_r.
    + apply Hu.
Qed.

Lemma underway_print ls steps s :
  is_done s = false ->
  hoare (underway ls steps) (@print Browser PW s) (guarded (underway ls steps) stopped).
Proof.
  intros Hd. apply hoare_print.
  - intros w (Hs & Hl & Hi & Hc & Hdn) _.
    unfold guarded, underway, after_print; simpl.
    rewrite filter_snoc, Hd, Hdn. repeat split; trivial.
  - intros w (Hs & Hl & Hi & Hc & Hdn) _. split; [exact Hdn |]. right.
    rewrite Hi. repeat split; trivial.
Qed.

Lemma underway_ret {A : Type} ls steps (a : A) :
  hoare (underway ls steps) (@ret Browser A a) (guarded (underway ls steps) stopped).
Proof. intros w H. exact H. Qed.

Lemma underway_page_url ls steps :
  hoare (underway ls steps) page_url (guarded (underway ls steps) stopped).
Proof. intros w H. exact H. Qed.

Lemma underway_read_list ls steps r :
  hoare (underway ls steps) (@read_list Browser r) (guarded (underway ls steps) stopped).
Proof. intros w H. exact H. Qed.

Lemma underway_new_list ls steps :
  hoare (underway ls steps) (@new_list Browser) (guarded (underway ls steps) stopped).
Proof. intros w H. exact H. Qed.

Lemma underway_page_on ls steps steps' ev k :
  steps ++ [Listening ev] = steps' ->
  existsb is_closed steps' = false ->
  hoare (underway ls steps) (@page_on Browser ev k) (guarded (underway ls steps') stopped).
Proof.
  intros Hst Hcl w (Hs & Hl & Hi & Hc & Hd). unfold guarded, underway; simpl.
  rewrite forallb_snoc, links_found_snoc, itinerary_snoc, Hs, Hl, Hi. simpl.
  rewrite app_nil_r, Hst. repeat split; trivial.
Qed.

Lemma underway_for_each {A : Type} ls steps (l : list A) (body : A -> M Browser unit) :
  (forall x, hoare (underway ls steps) (body x) (guarded (underway ls steps) stopped)) ->
  hoare (underway ls steps) (for_each l body) (guarded (underway ls steps) stopped).
Proof.
  intros Hbody. induction l as [| x rest IH]; simpl.
  - apply underway_ret.
  - eapply hoare_step; [apply Hbody | intros _; exact IH].
Qed.

Lemma underway_close ls steps :
  hoare (underway ls steps) (call Close) (guarded (ended [] ls steps) stopped).
Proof.
  apply hoare_call. intros w r b' Hu. unfold result_of.
  destruct (outcome r) as [what | v] eqn:Hout; simpl.
  - eapply call_stopped; eassumption.
  - destruct Hu as (Hs & Hl & Hi & Hc & Hd). unfold ended, after_call; simpl.
    rewrite forallb_snoc, links_found_snoc, itinerary_snoc, Hs, Hl, Hi. simpl.
    rewrite Hout, app_nil_r. repeat split; trivial.
Qed.

Lemma ended_print ls steps s :
  is_done s = true -> Py.isascii s = true ->
  hoare (ended [] ls steps) (@print Browser PW s) (guarded (ended [s] ls steps) stopped).
Proof.
  intros Hd Ha. apply hoare_print_ascii; [exact Ha |].
  intros w (Hs & Hl & Hi & Hc & Hdn).
  unfold guarded, ended, after_print; simpl.
  rewrite filter_snoc, Hd, Hdn. repeat split; trivial.
Qed.

End Course.

(** Marches through a script call by call, up to a [locator.all()] or an
    [if links:]. *)
Ltac march :=
  repeat first
    [ eapply underway_call; [ intros ?; reflexivity | intros ?; cbn; reflexivity | reflexivity ]
    | eapply underway_print; reflexivity
    | eapply underway_page_url
    | eapply underway_read_list
    | eapply underway_new_list
    | eapply underway_page_on; [ cbn; reflexivity | reflexivity ]
    | eapply underway_for_each; intros ?
    | eapply underway_close
    | eapply ended_print; reflexivity
    | eapply hoare_bind_ret
    | lazymatch goal with
      | |- hoare _ (bind (call (All _)) _) _ => fail
      | |- hoare _ (bind (if Py.truthy _ then _ else _) _) _ => fail
      | |- _ => eapply hoare_step; [| intros ? ]
      end
    | match goal with
      | |- hoare _ (if _ then _ else _) _ => eapply hoare_if
      end ].

Section CourseOfRuns.

Context {Browser : Type} {PW : Playwright Browser}.

Lemma server_testing_course :
  hoare (underway [] []) (@php_server_testing Browser PW)
        (guarded (fun w => exists links,
                    ended [server_testing_done] [links]
                          (Went home :: map Clicked (firstn 1 links) ++
                           [Shot "/tmp/php_app_test.png"%string]) w)
                 stopped).
Proof.
  unfold php_server_testing. march.
  apply hoare_bind with (R := fun links => underway [links] [Went home]);
    [apply underway_all | intros links].
  march.
  destruct links as [| first_link others].
  - change (Py.truthy (@nil Locator)) with false. cbv iota.
    apply hoare_weaken with
      (P' := underway [[]] [Went home])
      (Q' := guarded (ended [server_testing_done] [[]]
                            [Went home; Shot "/tmp/php_app_test.png"%string]) stopped);
      [march | trivial |].
    intros [res | err] w0 H0; [exists []; exact H0 | exact H0].
  - change (Py.truthy (first_link :: others)) with true. cbv iota.
    unfold index. cbn [nth_error].
    apply hoare_weaken with
      (P' := underway [first_link :: others] [Went home])
      (Q' := guarded (ended [server_testing_done] [first_link :: others]
                            [Went home; Clicked first_link;
                             Shot "/tmp/php_app_test.png"%string]) stopped);
      [march | trivial |].
    intros [res | err] w0 H0; [exists (first_link :: others); exact H0 | exact H0].
Qed.

Lemma testing_example_course :
  hoare (underway [] []) (@php_testing_example Browser PW)
        (guarded (ended [testing_example_done] []
                        [Went login; Shot "/tmp/php_login_page.png"%string;
                         Went users; Went register; Listening "console";
                         Went dashboard; Went profile;
                         Shot "/tmp/php_profile_page.png"%string])
                 stopped).
Proof.
  unfold php_testing_example, setup, example_1, example_2, example_3,
    example_4, example_5.
  march.
Qed.

End CourseOfRuns.

(** X3. [php_server_testing.py] handles no error.  A run that returns has
    made only successful calls: it went to the site, clicked the first of
    the links found when there was one (once, and nothing else), took the
    screenshot after that, closed the browser as its last call and printed
    the last line.  A run that raises has not printed the last line, and
    either it raises the error of its last call, the calls before it having
    succeeded and none of them being [browser.close()], or it raises
    [UnicodeEncodeError] from a [print], every call having succeeded and
    [browser.close()] not being among them. *)
Theorem server_testing_stops_at_first_error
        (Browser : Type) (PW : Playwright Browser) (b : Browser) :
  let r := fst (php_server_testing (initial b)) in
  let w := snd (php_server_testing (initial b)) in
  match r with
  | Ok _ =>
      forallb succeeded (trace w) = true /\
      (exists links,
         links_found (trace w) = [links] /\
         itinerary (trace w) =
           Went home :: map Clicked (firstn 1 links) ++
           [Shot "/tmp/php_app_test.png"%string; Closed]) /\
      filter is_done (stdout w) = [server_testing_done]
  | Raise e =>
      filter is_done (stdout w) = [] /\
      ((exists what tr l,
          e = PlaywrightError what /\ trace w = tr ++ [l] /\
          forallb succeeded tr = true /\ error_of l = Some what /\
          existsb is_closed (itinerary tr) = false) \/
       (e = UnicodeEncodeError /\
        forallb succeeded (trace w) = true /\
        existsb is_closed (itinerary (trace w)) = false))
  end.
Proof.
  intros r w.
  assert (Hinit : underway [] [] (initial b)) by (repeat split).
  pose proof (server_testing_course (initial b) Hinit) as H.
  fold r w in H. destruct r as [[] | e]; simpl in H.
  - destruct H as (links & Hs & Hl & Hi & Hc & Hd).
    split; [exact Hs |]. split; [| exact Hd].
    exists links. split; [exact Hl |]. rewrite Hi.
    simpl. now rewrite <- app_assoc.
  - exact H.
Qed.

(** X4. [php_testing_example.py] handles no error either.  A run that
    returns has made only successful calls and, in this order, has gone to
    the login page and taken its screenshot, gone to the users and the
    register pages, attached the console handler, gone to the dashboard and
    the profile pages, taken the profile screenshot and closed the browser,
    before printing the last line.  A run that raises has not printed the
    last line, and either it raises the error of its last call, the calls
    before it having succeeded and none of them being [browser.close()],
    or it raises [UnicodeEncodeError] from a [print], every call having
    succeeded and [browser.close()] not being among them. *)
Theorem testing_example_stops_at_first_error
        (Browser : Type) (PW : Playwright Browser) (b : Browser) :
  let r := fst (php_testing_example (initial b)) in
  let w := snd (php_testing_example (initial b)) in
  match r with
  | Ok _ =>
      forallb succeeded (trace w) = true /\
      itinerary (trace w) =
        [Went login; Shot "/tmp/php_login_page.png"%string;
         Went users; Went register; Listening "console";
         Went dashboard; Went profile;
         Shot "/tmp/php_profile_page.png"%string; Closed] /\
      filter is_done (stdout w) = [testing_example_done]
  | Raise e =>
      filter is_done (stdout w) = [] /\
      ((exists what tr l,
          e = PlaywrightError what /\ trace w = tr ++ [l] /\
          forallb succeeded tr = true /\ error_of l = Some what /\
          existsb is_closed (itinerary tr) = false) \/
       (e = UnicodeEncodeError /\
        forallb succeeded (trace w) = true /\
        existsb is_closed (itinerary (trace w)) = false))
  end.
Proof.
  intros r w.
  assert (Hinit : underway [] [] (initial b)) by (repeat split).
  pose proof (testing_example_course (initial b) Hinit) as H.
  fold r w in H. destruct r as [[] | e]; simpl in H.
  - destruct H as (Hs & Hl & Hi & Hc & Hd).
    split; [exact Hs |]. split; [exact Hi | exact Hd].
  - exact H.
Qed.

(* ===================================================================== *)
(** ** The session check of Example 5 *)
(* ===================================================================== *)

Section Session.

Context {Browser : Type} {PW : Playwright Browser}.

Lemma session_call vs (T : Type) (a : api T) :
  (forall r, visible_read (Called a r) = []) ->
  forall (w : World Browser) r b', session vs w -> session vs (after_call w a r b').
Proof.
  intros Hv w r b' [H1 H2]. unfold session, after_call; simpl.
  rewrite visibles_snoc, Hv, app_nil_r. split; assumption.
Qed.

Lemma session_print vs s :
  is_session s = false ->
  forall w : World Browser, session vs w -> session vs (after_print w s).
Proof.
  intros Hs w [H1 H2]. unfold session, after_print; simpl.
  rewrite filter_snoc, Hs, app_nil_r. split; assumption.
Qed.

Lemma session_new_list vs : always (session vs) (@new_list Browser).
Proof. intros w H. exact H. Qed.

Lemma session_page_on vs ev k : always (session vs) (@page_on Browser ev k).
Proof.
  intros w [H1 H2]. unfold session; simpl.
  rewrite visibles_snoc. simpl. rewrite app_nil_r. split; assumption.
Qed.

Lemma session_unchecked (w : World Browser) : session [] w -> session_checked w.
Proof. intros H. exists []. split; [exact H | simpl; lia]. Qed.

Lemma checked_call (T : Type) (a : api T) :
  (forall r, visible_read (Called a r) = []) ->
  forall (w : World Browser) r b', session_checked w -> session_checked (after_call w a r b').
Proof.
  intros Hv w r b' (vs & Hs & Hlen). exists vs. split; [| exact Hlen].
  apply session_call; assumption.
Qed.

Lemma checked_print s :
  is_session s = false ->
  forall w : World Browser, session_checked w -> session_checked (after_print w s).
Proof.
  intros Hp w (vs & Hs & Hlen). exists vs. split; [| exact Hlen].
  apply session_print; assumption.
Qed.

End Session.

Ltac session_side :=
  first
    [ apply session_call; intros ?; reflexivity
    | apply session_print; reflexivity
    | apply checked_call; intros ?; reflexivity
    | apply checked_print; reflexivity ].

Section SessionRun.

Context {Browser : Type} {PW : Playwright Browser}.

Lemma example_5_session :
  hoare (session []) (@example_5 Browser PW) (fun _ w => session_checked w).
Proof.
  unfold example_5.
  do 2 (apply hoare_after;
        [ walk session_side | intros ? ?; apply session_unchecked | intros ? ]).
  apply hoare_bind with
    (R := fun visible w => visibles (trace w) = [visible] /\
                           filter is_session (stdout w) = []).
  { apply hoare_call. intros w r b' [H1 H2]. unfold result_of.
    destruct (outcome r) as [what | v] eqn:Hout.
    - apply session_unchecked. split; simpl; [| exact H2].
      rewrite visibles_snoc. simpl. now rewrite Hout, H1.
    - split; simpl; [| exact H2].
      rewrite visibles_snoc. simpl. now rewrite Hout, H1. }
  intros visible.
  apply hoare_bind with (R := fun _ => session [visible]).
  { intros w [H1 H2]. destruct visible; simpl; (split; [exact H1 |]);
      simpl; rewrite filter_snoc, H2; reflexivity. }
  intros _. apply hoare_call. intros w r b' Hs.
  exists [visible]. split; [| simpl; lia].
  apply session_call; [intros ?; reflexivity | exact Hs].
Qed.

Lemma testing_example_session :
  hoare (session []) (@php_testing_example Browser PW) (fun _ w => session_checked w).
Proof.
  unfold php_testing_example.
  do 5 (apply hoare_after;
        [ unfold setup, example_1, example_2, example_3, example_4;
          walk session_side;
          first [ apply session_new_list | apply session_page_on ]
        | intros ? ?; apply session_unchecked
        | intros ? ]).
  apply hoare_bind with (R := fun _ => session_checked).
  - intros w Hs. pose proof (example_5_session w Hs) as H.
    destruct (fst (example_5 w)); exact H.
  - intros _. apply hoare_of_always; [walk session_side | trivial].
Qed.

End SessionRun.

(** X5. In every run of [php_testing_example.py] the session lines
    printed are those of the [is_visible()] checks that returned, in
    order: "Session maintained" for a visible logout button, "Session
    lost" for a hidden one.  There is at most one such check, so at most
    one session line, and none when the run stops before the check
    returns. *)
Theorem session_line_follows_visibility
        (Browser : Type) (PW : Playwright Browser) (b : Browser) :
  let w := snd (php_testing_example (initial b)) in
  filter is_session (stdout w) = map session_line (visibles (trace w)) /\
  length (visibles (trace w)) <= 1.
Proof.
  intros w.
  assert (Hinit : session [] (initial b)) by (split; reflexivity).
  destruct (testing_example_session (initial b) Hinit) as (vs & [Hv Hp] & Hlen).
  fold w in Hv, Hp. rewrite Hv. split; assumption.
Qed.

(* ===================================================================== *)
(** ** The readings of Examples 1 to 3, proved *)
(* ===================================================================== *)

Section Readings.

Context {Browser : Type} {PW : Playwright Browser}.

Lemma mirrored_call (T : Type) (a : api T) :
  (forall r, report (Called a r) = []) ->
  forall (w : World Browser) r b', mirrored w -> mirrored (after_call w a r b').
Proof.
  intros Hr w r b' H. unfold mirrored, after_call in *. cbn [trace stdout].
  rewrite flat_map_app. cbn [flat_map]. rewrite Hr, !app_nil_r. exact H.
Qed.

Lemma mirrored_print s :
  is_report s = false ->
  forall w : World Browser, mirrored w -> mirrored (after_print w s).
Proof.
  intros Hs w H. unfold mirrored, after_print in *; simpl.
  rewrite filter_snoc, Hs, app_nil_r. exact H.
Qed.

Lemma mirrored_accounted r (w : World Browser) : mirrored w -> accounted r w.
Proof.
  intros H. exists []. rewrite app_nil_r. split; [symmetry; exact H | now left].
Qed.

Lemma mirrored_calls (T : Type) (a : api T) :
  (forall r, report (Called a r) = []) ->
  hoare mirrored (call a) (guarded mirrored (fun e => accounted (Raise e))).
Proof.
  intros Hr. apply hoare_call. intros w r b' H.
  apply (mirrored_call T a Hr w r b') in H.
  unfold result_of. destruct (outcome r); simpl; [apply mirrored_accounted |]; exact H.
Qed.

Lemma mirrored_prints s :
  is_report s = false ->
  hoare mirrored (@print Browser PW s)
        (guarded mirrored (fun e => accounted (Raise e))).
Proof.
  intros Hs. apply hoare_print.
  - intros w H _. apply mirrored_print; assumption.
  - intros w H _. apply mirrored_accounted, H.
Qed.

Lemma mirrored_ret {A : Type} (a : A) :
  hoare mirrored (@ret Browser A a) (guarded mirrored (fun e => accounted (Raise e))).
Proof. intros w H. exact H. Qed.

Lemma mirrored_read_list r :
  hoare mirrored (@read_list Browser r)
        (guarded mirrored (fun e => accounted (Raise e))).
Proof. intros w H. exact H. Qed.

Lemma mirrored_new_list :
  hoare mirrored (@new_list Browser) (guarded mirrored (fun e => accounted (Raise e))).
Proof. intros w H. exact H. Qed.

Lemma mirrored_page_on ev k :
  hoare mirrored (@page_on Browser ev k)
        (guarded mirrored (fun e => accounted (Raise e))).
Proof.
  intros w H. unfold guarded, mirrored in *; simpl.
  rewrite flat_map_app. simpl. rewrite app_nil_r. exact H.
Qed.

Lemma mirrored_for_each {A : Type} (l : list A) (body : A -> M Browser unit) :
  (forall x, hoare mirrored (body x) (guarded mirrored (fun e => accounted (Raise e)))) ->
  hoare mirrored (for_each l body) (guarded mirrored (fun e => accounted (Raise e))).
Proof.
  intros Hbody. induction l as [| x rest IH]; simpl.
  - apply mirrored_ret.
  - eapply hoare_step; [apply Hbody | intros _; exact IH].
Qed.

(** A reading of the page: its line is owed until it is printed. *)
Lemma mirrored_read {T B : Type} (a : api T) (line : T -> string)
      (k : T -> M Browser B) (P : World Browser -> Prop) :
  (forall r, report (Called a r) =
             match outcome r with inr v => [line v] | inl _ => [] end) ->
  (forall v, hoare (owing (line v)) (k v)
                   (guarded P (fun e => accounted (Raise e)))) ->
  hoare mirrored (bind (call a) k) (guarded P (fun e => accounted (Raise e))).
Proof.
  intros Hr Hk. apply hoare_bind with (R := fun v => owing (line v)); [| exact Hk].
  apply hoare_call. intros w r b' H. pose proof (Hr r) as Hrep.
  unfold result_of. destruct (outcome r) as [what | v] eqn:Hout.
  - apply mirrored_accounted. unfold mirrored, after_call in *. cbn [trace stdout].
    rewrite flat_map_app. cbn [flat_map]. rewrite Hrep, !app_nil_r. exact H.
  - unfold owing, mirrored, after_call in *. cbn [trace stdout].
    rewrite flat_map_app. cbn [flat_map]. rewrite Hrep, H, app_nil_r. reflexivity.
Qed.

Lemma owing_print line :
  is_report line = true ->
  hoare (owing line) (@print Browser PW line)
        (guarded mirrored (fun e => accounted (Raise e))).
Proof.
  intros Hl. apply hoare_print.
  - intros w H _. unfold guarded, owing, mirrored, after_print in *. cbn [trace stdout].
    rewrite filter_snoc, Hl. symmetry. exact H.
  - intros w H Hbad. exists [line]. split; [exact H |]. right.
    exists line. repeat split; trivial.
Qed.

End Readings.

Ltac mirror_walk :=
  repeat first
    [ eapply mirrored_calls; intros ?; reflexivity
    | eapply mirrored_prints; reflexivity
    | eapply owing_print; reflexivity
    | eapply mirrored_read_list
    | eapply mirrored_new_list
    | eapply mirrored_page_on
    | eapply mirrored_for_each; intros ?
    | eapply mirrored_read; [ solve [ intros ?; reflexivity ] | intros ? ]
    | eapply hoare_step; [| intros ? ]
    | match goal with
      | |- hoare _ (if _ then _ else _) _ => eapply hoare_if
      end ].

Section ReadingsRun.

Context {Browser : Type} {PW : Playwright Browser}.

Lemma testing_example_mirrored :
  hoare mirrored (@php_testing_example Browser PW)
        (guarded mirrored (fun e => accounted (Raise e))).
Proof.
  unfold php_testing_example, setup, example_1, example_2, example_3,
    example_4, example_5.
  mirror_walk.
Qed.

End ReadingsRun.

(** X6. At the end of every run of [php_testing_example.py] the lines
    reporting the welcome message, the API response, the validation error
    and the registration success are those of the readings of the page that
    returned, in the order of the readings, each carrying the text that was
    read; one reading only can lack its line, the last, when the stream
    could not encode the line and the run ended there in
    [UnicodeEncodeError]. *)
Theorem reports_follow_readings
        (Browser : Type) (PW : Playwright Browser) (b : Browser) :
  let r := fst (php_testing_example (initial b)) in
  let w := snd (php_testing_example (initial b)) in
  exists pending,
    flat_map report (trace w) = filter is_report (stdout w) ++ pending /\
    (pending = [] \/
     exists line,
       pending = [line] /\ printable line = false /\
       r = Raise UnicodeEncodeError).
Proof.
  intros r w.
  assert (Hinit : mirrored (initial b)) by reflexivity.
  pose proof (testing_example_mirrored (initial b) Hinit) as H.
  fold r w in H. destruct r as [[] | e]; simpl in H.
  - apply (mirrored_accounted (Ok tt) w H).
  - exact H.
Qed.

(* ===================================================================== *)
(** ** The output of [php_server_testing.py], proved *)
(* ===================================================================== *)

Section Transcript.

Context {Browser : Type} {PW : Playwright Browser}.

Lemma titles_snoc tr e : titles (tr ++ [e]) = titles tr ++ title_read e.
Proof. unfold titles. rewrite flat_map_app. simpl. now rewrite app_nil_r. Qed.

Lemma hoare_then {A B : Type} (P P' P'' : World Browser -> Prop)
      (m : M Browser A) (k : A -> M Browser B) :
  hoare P m (returning P') ->
  (forall a, hoare P' (k a) (returning P'')) ->
  hoare P (bind m k) (returning P'').
Proof.
  intros Hm Hk. apply hoare_bind with (R := fun _ => P'); [exact Hm | exact Hk].
Qed.

Lemma hoare_exists {A X : Type} (P : X -> World Browser -> Prop)
      (m : M Browser A) (Q : result A -> World Browser -> Prop) :
  (forall x, hoare (P x) m Q) -> hoare (fun w => exists x, P x w) m Q.
Proof. intros H w [x Hx]. exact (H x w Hx). Qed.

Lemma hoare_assume {A : Type} (C : Prop) (P : World Browser -> Prop)
      (m : M Browser A) (Q : result A -> World Browser -> Prop) :
  (C -> hoare P m Q) -> hoare (fun w => C /\ P w) m Q.
Proof. intros H w [HC HP]. exact (H HC w HP). Qed.

Lemma wrote_after_call ts ls hs xs lines (T : Type) (a : api T)
      (w : World Browser) r b' :
  wrote ts ls hs xs lines w ->
  wrote (ts ++ title_read (Called a r)) (ls ++ found (Called a r))
        (hs ++ href_read (Called a r)) (xs ++ text_read (Called a r))
        lines (after_call w a r b').
Proof.
  intros (Ht & Hl & Hh & Hx & Hs). unfold wrote, after_call. cbn [trace stdout].
  rewrite titles_snoc, links_found_snoc, hrefs_read_snoc, texts_read_snoc,
    Ht, Hl, Hh, Hx. repeat split; trivial.
Qed.

Lemma wrote_call ts ls hs xs lines (T : Type) (a : api T) :
  (forall r, title_read (Called a r) = []) ->
  (forall r, found (Called a r) = []) ->
  (forall r, href_read (Called a r) = []) ->
  (forall r, text_read (Called a r) = []) ->
  hoare (wrote ts ls hs xs lines) (call a) (returning (wrote ts ls hs xs lines)).
Proof.
  intros H1 H2 H3 H4. apply hoare_call. intros w r b' Hw.
  apply (wrote_after_call _ _ _ _ _ T a w r b') in Hw.
  rewrite H1, H2, H3, H4, !app_nil_r in Hw.
  unfold result_of. destruct (outcome r); simpl; trivial.
Qed.

Lemma wrote_print ts ls hs xs lines lines' s :
  lines ++ [s] = lines' ->
  hoare (wrote ts ls hs xs lines) (@print Browser PW s)
        (returning (wrote ts ls hs xs lines')).
Proof.
  intros <-. apply hoare_print; [| intros; exact I].
  intros w (Ht & Hl & Hh & Hx & Hs) _.
  unfold returning, wrote, after_print. cbn [trace stdout].
  rewrite Hs. repeat split; trivial.
Qed.

Lemma wrote_ret {A : Type} ts ls hs xs lines (a : A) :
  hoare (wrote ts ls hs xs lines) (@ret Browser A a)
        (returning (wrote ts ls hs xs lines)).
Proof. intros w H. exact H. Qed.

(** One round of the loop over the first links. *)
Lemma wrote_detail title links pre done x :
  hoare (fun w => exists ds, map d_link ds = done /\
                    wrote [title] [links] (map href_of ds) (map text_of ds)
                          (pre ++ map detail_line ds) w)
        (bind (call (GetAttribute x "href")) (fun href =>
         bind (call (InnerText x)) (fun text =>
         @print Browser PW ("  - " ++ Py.strip text ++ " -> " ++ Py.str_of_optional href)%string)))
        (returning (fun w => exists ds, map d_link ds = done ++ [x] /\
                      wrote [title] [links] (map href_of ds) (map text_of ds)
                            (pre ++ map detail_line ds) w)).
Proof.
  apply hoare_exists. intros ds. apply hoare_assume. intros Hdone.
  apply hoare_bind with
    (R := fun href => wrote [title] [links] (map href_of ds ++ [(x, href)])
                            (map text_of ds) (pre ++ map detail_line ds)).
  { apply hoare_call. intros w r b' Hw.
    apply (wrote_after_call _ _ _ _ _ _ (GetAttribute x "href") w r b') in Hw.
    unfold result_of. destruct (outcome r) as [what | href] eqn:Hout; [exact I |].
    cbn [title_read found href_read text_read] in Hw.
    rewrite Hout, !app_nil_r in Hw. exact Hw. }
  intros href.
  apply hoare_bind with
    (R := fun text => wrote [title] [links] (map href_of ds ++ [(x, href)])
                            (map text_of ds ++ [(x, text)])
                            (pre ++ map detail_line ds)).
  { apply hoare_call. intros w r b' Hw.
    apply (wrote_after_call _ _ _ _ _ _ (InnerText x) w r b') in Hw.
    unfold result_of. destruct (outcome r) as [what | text] eqn:Hout; [exact I |].
    cbn [title_read found href_read text_read] in Hw.
    rewrite Hout, !app_nil_r in Hw. exact Hw. }
  intros text. apply hoare_print; [| intros; exact I].
  intros w (Ht & Hl & Hh & Hx & Hs) _.
  exists (ds ++ [mkDetail x href text]). split.
  { rewrite map_app, Hdone. reflexivity. }
  unfold wrote, after_print. cbn [trace stdout].
  rewrite !map_app, Ht, Hl, Hh, Hx, Hs, <- app_assoc. repeat split; trivial.
Qed.

End Transcript.

Ltac scribe :=
  repeat first
    [ eapply wrote_call; intros ?; reflexivity
    | eapply wrote_print; cbn [app]; reflexivity
    | eapply wrote_ret
    | eapply hoare_bind_ret
    | lazymatch goal with
      | |- hoare _ (bind (call Title) _) _ => fail
      | |- hoare _ (bind (call (All _)) _) _ => fail
      | |- hoare _ (bind (call (InnerText _)) _) _ => fail
      | |- hoare _ (bind page_url _) _ => fail
      | |- hoare _ (bind (for_each _ _) _) _ => fail
      | |- hoare _ (bind (if Py.truthy _ then _ else _) _) _ => fail
      | |- _ => eapply hoare_then; [| intros ? ]
      end ].

Section TranscriptRun.

Context {Browser : Type} {PW : Playwright Browser}.

Lemma server_testing_transcript :
  hoare (wrote [] [] [] [] []) (@php_server_testing Browser PW) (returning transcript).
Proof.
  unfold php_server_testing. scribe.
  apply hoare_bind with (R := fun title => wrote [title] [] [] [] []).
  { apply hoare_call. intros w r b' Hw.
    apply (wrote_after_call _ _ _ _ _ _ Title w r b') in Hw.
    unfold result_of. destruct (outcome r) as [what | title] eqn:Hout; [exact I |].
    cbn [title_read found href_read text_read] in Hw.
    rewrite Hout in Hw. exact Hw. }
  intros title. scribe.
  apply hoare_bind with
    (R := fun links => wrote [title] [links] [] [] [title_line title]).
  { apply hoare_call. intros w r b' Hw.
    apply (wrote_after_call _ _ _ _ _ _ (All (Css "a[href]")) w r b') in Hw.
    unfold result_of. destruct (outcome r) as [what | links] eqn:Hout; [exact I |].
    cbn [title_read found href_read text_read] in Hw.
    rewrite Hout in Hw. exact Hw. }
  intros links. scribe.
  set (pre := [title_line title; found_line (length links)]).
  apply hoare_then with
    (P' := fun w => exists ds, map d_link ds = Py.slice_to 5 links /\
                      wrote [title] [links] (map href_of ds) (map text_of ds)
                            (pre ++ map detail_line ds) w).
  { apply hoare_weaken with
      (P' := (fun done w => exists ds, map d_link ds = done /\
                wrote [title] [links] (map href_of ds) (map text_of ds)
                      (pre ++ map detail_line ds) w) [])
      (Q' := returning (fun w => exists ds, map d_link ds = Py.slice_to 5 links /\
                wrote [title] [links] (map href_of ds) (map text_of ds)
                      (pre ++ map detail_line ds) w)).
    - apply hoare_for_each with
        (I := fun done w => exists ds, map d_link ds = done /\
                wrote [title] [links] (map href_of ds) (map text_of ds)
                      (pre ++ map detail_line ds) w).
      + intros done x rest _. apply wrote_detail.
      + trivial.
    - intros w Hw. exists []. split; [reflexivity | exact Hw].
    - trivial. }
  intros _. apply hoare_exists. intros ds. apply hoare_assume. intros Hds.
  destruct links as [| first_link others].
  - change (Py.truthy (@nil Locator)) with false. cbv iota.
    apply hoare_weaken with
      (P' := wrote [title] [[]] (map href_of ds) (map text_of ds)
                   (pre ++ map detail_line ds))
      (Q' := returning (wrote [title] [[]] (map href_of ds) (map text_of ds)
                              (((pre ++ map detail_line ds) ++
                                [saved_line]) ++ [server_testing_done])));
      [scribe | trivial |].
    intros [res | err] w0 H0; [| exact I].
    destruct H0 as (Ht & Hl & Hh & Hx & Hs).
    exists title, [], ds. repeat split; trivial.
    rewrite Hs. now rewrite <- !app_assoc.
  - change (Py.truthy (first_link :: others)) with true. cbv iota.
    unfold index. cbn [nth_error].
    apply hoare_then with
      (P' := fun w => exists text url,
               wrote [title] [first_link :: others] (map href_of ds)
                     (map text_of ds ++ [(first_link, text)])
                     ((pre ++ map detail_line ds) ++
                      [clicking_line text; navigated_line url]) w).
    { apply hoare_bind_ret.
      apply hoare_bind with
        (R := fun text => wrote [title] [first_link :: others] (map href_of ds)
                                (map text_of ds ++ [(first_link, text)])
                                (pre ++ map detail_line ds)).
      { apply hoare_call. intros w r b' Hw.
        apply (wrote_after_call _ _ _ _ _ _ (InnerText first_link) w r b') in Hw.
        unfold result_of. destruct (outcome r) as [what | text] eqn:Hout; [exact I |].
        cbn [title_read found href_read text_read] in Hw.
        rewrite Hout, !app_nil_r in Hw. exact Hw. }
      intros text.
      apply hoare_then with
        (P' := wrote [title] [first_link :: others] (map href_of ds)
                     (map text_of ds ++ [(first_link, text)])
                     ((pre ++ map detail_line ds) ++ [clicking_line text]));
        [apply wrote_print; reflexivity | intros _].
      apply hoare_then with
        (P' := wrote [title] [first_link :: others] (map href_of ds)
                     (map text_of ds ++ [(first_link, text)])
                     ((pre ++ map detail_line ds) ++ [clicking_line text]));
        [apply wrote_call; intros ?; reflexivity | intros _].
      apply hoare_then with
        (P' := wrote [title] [first_link :: others] (map href_of ds)
                     (map text_of ds ++ [(first_link, text)])
                     ((pre ++ map detail_line ds) ++ [clicking_line text]));
        [apply wrote_call; intros ?; reflexivity | intros _].
      apply hoare_bind with
        (R := fun _ => wrote [title] [first_link :: others] (map href_of ds)
                             (map text_of ds ++ [(first_link, text)])
                             ((pre ++ map detail_line ds) ++ [clicking_line text])).
      { intros w Hw. exact Hw. }
      intros url. apply hoare_print; [| intros; exact I].
      intros w (Ht & Hl & Hh & Hx & Hs) _. exists text, url.
      unfold wrote, after_print. cbn [trace stdout].
      rewrite Hs, <- !app_assoc. repeat split; trivial. }
    intros _. apply hoare_exists. intros text. apply hoare_exists. intros url.
    apply hoare_weaken with
      (P' := wrote [title] [first_link :: others] (map href_of ds)
                   (map text_of ds ++ [(first_link, text)])
                   ((pre ++ map detail_line ds) ++
                    [clicking_line text; navigated_line url]))
      (Q' := returning (wrote [title] [first_link :: others] (map href_of ds)
                              (map text_of ds ++ [(first_link, text)])
                              ((((pre ++ map detail_line ds) ++
                                 [clicking_line text; navigated_line url]) ++
                                [saved_line]) ++ [server_testing_done])));
      [scribe | trivial |].
    intros [res | err] w0 H0; [| exact I].
    destruct H0 as (Ht & Hl & Hh & Hx & Hs).
    exists title, (first_link :: others), ds. repeat split; trivial.
    exists text, url. split; [exact Hx |].
    rewrite Hs. now rewrite <- !app_assoc.
Qed.

End TranscriptRun.

(** X7. A run of [php_server_testing.py] that returns has read one title
    and one list of links, and has printed, in this order and nothing
    else: the title line, the number of links, one detail line for each of
    the first five links (made of the href and the text read for it), on a
    page with links the text read from the first link before the click and
    the line of the URL after it, then the screenshot line and the
    completion line. *)
Theorem server_testing_prints_transcript
        (Browser : Type) (PW : Playwright Browser) (b : Browser) :
  let r := fst (php_server_testing (initial b)) in
  let w := snd (php_server_testing (initial b)) in
  r = Ok tt ->
  exists title links ds,
    titles (trace w) = [title] /\
    links_found (trace w) = [links] /\
    map d_link ds = firstn 5 links /\
    hrefs_read (trace w) = map href_of ds /\
    match links with
    | [] =>
        texts_read (trace w) = map text_of ds /\
        stdout w =
          [title_line title; found_line (length links)] ++ map detail_line ds ++
          [saved_line; server_testing_done]
    | first_link :: _ =>
        exists text url,
          texts_read (trace w) = map text_of ds ++ [(first_link, text)] /\
          stdout w =
            [title_line title; found_line (length links)] ++ map detail_line ds ++
            [clicking_line text; navigated_line url; saved_line; server_testing_done]
    end.
Proof.
  intros r w Hr.
  assert (Hinit : wrote [] [] [] [] [] (initial b)) by (repeat split).
  pose proof (server_testing_transcript (initial b) Hinit) as H.
  fold r w in H. rewrite Hr in H. exact H.
Qed.

Lemma server_testing_prints_transcript_witness :
  fst (@php_server_testing Site.state (Site.served 7) (initial 0)) = Ok tt /\
  transcript (snd (@php_server_testing Site.state (Site.served 7) (initial 0))).
Proof.
  assert (Hr : fst (@php_server_testing Site.state (Site.served 7) (initial 0)) = Ok tt).
  { vm_compute. reflexivity. }
  split; [exact Hr |].
  exact (server_testing_prints_transcript Site.state (Site.served 7) 0 Hr).
Defined.
